(** * tweets_scrapper: the Collector (scrapper.py) and the Aggregator (signals.py)

    A shallow embedding of the two engines of the repository and the
    properties of its specification, proved on it.

    Conventions of the embedding.
    - A Python [str] is a [string]; the character classes ([str.strip],
      [str.lower], [\w]) are those of Python on the ASCII range, a character
      above 127 is neither a space, a letter nor a digit.
    - A Python [float] is an IEEE 754 binary64 value, [spec_float] with
      precision 53 and maximal exponent 1024, every operation rounding to
      nearest even as CPython and NumPy do.
    - An exception is a value [Raise e] of [outcome]; [try]/[except] is a
      match on it.
    - What the browser, the clock and the file system answer is an argument
      of the function that asks; [hashlib.md5] and [pd.to_datetime], which
      the repository takes from its libraries, are the methods of two
      classes, and every property holds for all their instances. *)

From Stdlib Require Import ZArith QArith Qround Qabs Qpower Lqa Lia Bool List Ascii String.
From Stdlib Require Import Floats.SpecFloat.
From stdpp Require Import gmap sorting.
Import ListNotations.

Local Open Scope string_scope.
Local Open Scope Z_scope.

(** ** Exceptions *)

Inductive exn : Type :=
| ValueError
| OverflowError
| PlaywrightError (msg : string).

Inductive outcome (A : Type) : Type :=
| Ok (a : A)
| Raise (e : exn).
Arguments Ok {A} a.
Arguments Raise {A} e.

#[global] Instance outcome_bind : MBind outcome := fun A B k c =>
  match c with
  | Ok a => k a
  | Raise e => Raise e
  end.

(** ** Python strings *)

Module PyStr.

(** [str.isspace] on one ASCII character: TAB, LF, VT, FF, CR, FS, GS, RS,
    US and the space. *)
Definition is_space (c : ascii) : bool :=
  let n := N_of_ascii c in
  ((9 <=? n) && (n <=? 13) || (28 <=? n) && (n <=? 32))%N.

Definition is_digit (c : ascii) : bool :=
  let n := N_of_ascii c in ((48 <=? n) && (n <=? 57))%N.

Definition digit_val (c : ascii) : Z := Z.of_N (N_of_ascii c) - 48.

Definition is_upper (c : ascii) : bool :=
  let n := N_of_ascii c in ((65 <=? n) && (n <=? 90))%N.

Definition is_lower (c : ascii) : bool :=
  let n := N_of_ascii c in ((97 <=? n) && (n <=? 122))%N.

(** [\w] of [re] on the ASCII range. *)
Definition is_word (c : ascii) : bool :=
  is_digit c || is_upper c || is_lower c || Ascii.eqb c "_".

Definition lower_char (c : ascii) : ascii :=
  if is_upper c then ascii_of_N (N_of_ascii c + 32) else c.

Fixpoint lower (s : string) : string :=
  match s with
  | EmptyString => EmptyString
  | String c t => String (lower_char c) (lower t)
  end.

Fixpoint lstrip (s : string) : string :=
  match s with
  | EmptyString => EmptyString
  | String c t => if is_space c then lstrip t else s
  end.

Fixpoint rstrip (s : string) : string :=
  match s with
  | EmptyString => EmptyString
  | String c t =>
      match rstrip t with
      | EmptyString => if is_space c then EmptyString else String c EmptyString
      | t' => String c t'
      end
  end.

(** [s.strip()] *)
Definition strip (s : string) : string := rstrip (lstrip s).

(** [s.replace(c, r)] for a pattern [c] of one character. *)
Fixpoint replace (c : ascii) (r : string) (s : string) : string :=
  match s with
  | EmptyString => EmptyString
  | String a t =>
      if Ascii.eqb a c then r ++ replace c r t else String a (replace c r t)
  end.

(** [sub in s] *)
Fixpoint contains (sub s : string) : bool :=
  if String.prefix sub s then true
  else match s with
       | EmptyString => false
       | String _ t => contains sub t
       end.

(** [sep.join(l)] *)
Fixpoint join (sep : string) (l : list string) : string :=
  match l with
  | [] => EmptyString
  | [x] => x
  | x :: t => x ++ sep ++ join sep t
  end.

(** [sum(word in text for word in keywords)] *)
Definition count_in (keywords : list string) (text : string) : Z :=
  fold_right Z.add 0 (map (fun word => if contains word text then 1 else 0) keywords).

End PyStr.

(** ** Python floats: IEEE 754 binary64 *)

Module Float.

Definition prec : Z := 53.
Definition emax : Z := 1024.

Definition add : spec_float -> spec_float -> spec_float := SFadd prec emax.
Definition mul : spec_float -> spec_float -> spec_float := SFmul prec emax.
Definition div : spec_float -> spec_float -> spec_float := SFdiv prec emax.
Definition ltb : spec_float -> spec_float -> bool := SFltb.

(** [float(n)] of an [int]. *)
Definition of_Z (n : Z) : spec_float := binary_normalize prec emax n 0 false.

(** The binary64 value nearest to [n / d], for integers [n] and [d > 0]:
    a decimal literal of the source ([0.65] is [ratio 65 100]) and the true
    division [n / d] of two [int]s. *)
Definition ratio (n : Z) (d : positive) : spec_float :=
  match n with
  | Z0 => S754_zero false
  | Zpos m => div (S754_finite false m 0) (S754_finite false d 0)
  | Zneg m => div (S754_finite true m 0) (S754_finite false d 0)
  end.

(** The value of the decimal numeral [(-1)^s * m * 10^e], which is what
    [float(str)] returns for the text of that numeral. *)
Definition of_decimal (s : bool) (m : Z) (e : Z) : spec_float :=
  match m with
  | Zpos p =>
      if 0 <=? e then binary_round prec emax s (p * Z.to_pos (10 ^ e)) 0
      else div (S754_finite s p 0) (S754_finite false (Z.to_pos (10 ^ (- e))) 0)
  | _ => S754_zero s
  end.

(** [int(x)] of a [float]: truncation towards zero, [OverflowError] on an
    infinity and [ValueError] on a NaN. *)
Definition to_int (x : spec_float) : outcome Z :=
  match x with
  | S754_zero _ => Ok 0
  | S754_finite s m e =>
      let a := if 0 <=? e then Z.pos m * 2 ^ e else Z.pos m / 2 ^ (- e) in
      Ok (if s then - a else a)
  | S754_infinity _ => Raise OverflowError
  | S754_nan => Raise ValueError
  end.

(** [numpy.rint]: the nearest integer, ties to even, as a float. *)
Definition rint (x : spec_float) : spec_float :=
  match x with
  | S754_finite s m e =>
      if 0 <=? e then x
      else
        let q := Z.pos m / 2 ^ (- e) in
        let r := Z.pos m mod 2 ^ (- e) in
        let n := match 2 * r ?= 2 ^ (- e) with
                 | Lt => q
                 | Gt => q + 1
                 | Eq => if Z.even q then q else q + 1
                 end in
        binary_normalize prec emax (if s then - n else n) 0 s
  | _ => x
  end.

(** [round(x, ndigits)] of a [numpy.float64] for [ndigits >= 0]:
    [rint(x * 10**ndigits) / 10**ndigits]. *)
Definition round (x : spec_float) (ndigits : Z) : spec_float :=
  div (rint (mul x (of_Z (10 ^ ndigits)))) (of_Z (10 ^ ndigits)).

End Float.

(** ** [int(str)] and [float(str)] *)

Module PyNum.
Import PyStr.

(** An optional sign in front of a numeral. *)
Definition split_sign (s : string) : bool * string :=
  match s with
  | String "-" t => (true, t)
  | String "+" t => (false, t)
  | _ => (false, s)
  end.

(** The digits of a numeral, a single underscore allowed between two digits:
    the value read so far, the number of digits and the text that follows.
    [None] is a misplaced underscore. *)
Fixpoint scan_digits (prev_us : bool) (acc : Z) (n : nat) (s : string)
  : option (Z * nat * string) :=
  match s with
  | String c t =>
      if is_digit c then scan_digits false (10 * acc + digit_val c) (S n) t
      else if Ascii.eqb c "_" then
        (if prev_us then None else scan_digits true acc n t)
      else if prev_us then None else Some (acc, n, s)
  | EmptyString => if prev_us then None else Some (acc, n, EmptyString)
  end.

(** A run of digits at the head of [s]; no digit there is a run of length 0. *)
Definition digits (s : string) : option (Z * nat * string) :=
  match s with
  | String c _ => if is_digit c then scan_digits false 0 0 s else Some (0, 0%nat, s)
  | EmptyString => Some (0, 0%nat, EmptyString)
  end.

(** [int(s)] in base 10. *)
Definition int_of_str (s : string) : outcome Z :=
  let '(neg, body) := split_sign (strip s) in
  match digits body with
  | Some (v, S _, EmptyString) => Ok (if neg then - v else v)
  | _ => Raise ValueError
  end.

(** The exponent part of a float numeral: its value and the text after it. *)
Definition exponent (s : string) : option (Z * string) :=
  match s with
  | String c t =>
      if Ascii.eqb c "e" || Ascii.eqb c "E" then
        let '(neg, body) := split_sign t in
        match digits body with
        | Some (v, S _, r) => Some (if neg then - v else v, r)
        | _ => None
        end
      else Some (0, s)
  | EmptyString => Some (0, s)
  end.

(** A decimal numeral [digits [. digits] [e [sign] digits]] with a digit
    before or after the point: its mantissa and its power of ten. *)
Definition numeral (s : string) : option (Z * Z) :=
  '(iv, ni, s1) ← digits s;
  '(fv, nf, s2) ← match s1 with
                   | String "." t => digits t
                   | _ => Some (0, 0%nat, s1)
                   end;
  if (ni + nf =? 0)%nat then None
  else
    '(ev, s3) ← exponent s2;
    match s3 with
    | EmptyString => Some (iv * 10 ^ Z.of_nat nf + fv, ev - Z.of_nat nf)
    | _ => None
    end.

(** [float(s)] *)
Definition float_of_str (s : string) : outcome spec_float :=
  let '(neg, body) := split_sign (strip s) in
  let l := lower body in
  if String.eqb l "inf" || String.eqb l "infinity" then Ok (S754_infinity neg)
  else if String.eqb l "nan" then Ok S754_nan
  else match numeral body with
       | Some (m, e) => Ok (Float.of_decimal neg m e)
       | None => Raise ValueError
       end.

End PyNum.

(** ** scrapper.py: the Collector *)

(** [hashlib.md5(b).hexdigest()], a function of the library. *)
Class Hashlib := md5_hexdigest : string -> string.

Module Scrapper.
Import PyStr PyNum.

(** *** Utility functions *)

(** [re.findall] of the pattern [c\w+], [c] not a word character: [cur] is
    the word read since the last [c], if one is being read. *)
Definition flush (c : ascii) (cur : option string) : list string :=
  match cur with
  | Some (String a w) => [String c (String a w)]
  | _ => []
  end.

Fixpoint findall (c : ascii) (cur : option string) (s : string) : list string :=
  match s with
  | EmptyString => flush c cur
  | String a t =>
      match cur with
      | Some w =>
          if is_word a then findall c (Some (w ++ String a EmptyString)) t
          else flush c cur ++ findall c (if Ascii.eqb a c then Some EmptyString else None) t
      | None => findall c (if Ascii.eqb a c then Some EmptyString else None) t
      end
  end.

Definition extract_entities (text : string) : list string * list string :=
  let mentions := findall "@" None text in
  let hashtags := findall "#" None text in
  (mentions, hashtags).

(** The body of the [try] of [parse_count]. *)
Definition parse_count_try (text : string) : outcome Z :=
  let text := strip (replace "," "" text) in
  if contains "K" text then
    x ← float_of_str (replace "K" "" text);
    Float.to_int (Float.mul x (Float.of_Z 1000))
  else if contains "M" text then
    x ← float_of_str (replace "M" "" text);
    Float.to_int (Float.mul x (Float.of_Z 1000000))
  else int_of_str text.

Definition parse_count (text : string) : outcome Z :=
  match parse_count_try text with
  | Ok n => Ok n
  | Raise _ => Ok 0
  end.

(** A value that is a [str] or [None], as an f-string prints it. *)
Definition fmt (v : option string) : string :=
  match v with
  | Some s => s
  | None => "None"
  end.

Definition get_tweet_hash `{Hashlib} (username : string) (timestamp : option string)
  (content : string) : string :=
  let base := username ++ "|" ++ fmt timestamp ++ "|" ++ strip content in
  md5_hexdigest base.

(** *** Core scraping *)

(** One [article:has(time)] container, as the answers of the browser to the
    calls made on it: [Raise] when a call raises, [Ok None] when the queried
    element is absent; the [datetime] attribute of a [time] element may be
    absent ([Some None], the value [None] of Python). *)
Record block : Type := {
  inner_text : outcome string;
  time_datetime : outcome (option (option string));
  user_name : outcome (option string);
  like_text : outcome (option string);
  retweet_text : outcome (option string)
}.

(** A row of the result, one dictionary of [tweets_data]. *)
Record tweet : Type := {
  hashtag : string;
  username : string;
  timestamp : option string;
  content : string;
  likes : Z;
  retweets : Z;
  mentions : string;
  hashtags : string
}.

Inductive level : Type := INFO | WARNING | ERROR.

(** A log record: the format string of the source with its arguments. *)
Inductive message : Type :=
| MsgScroll (tag : string) (scroll_num : Z) (containers : nat)
| MsgCollected (tag : string) (n : nat)
| MsgReachedMax (tag : string) (max_tweets : Z)
| MsgSkipped (tag : string) (e : exn)
| MsgSearching (tag : string)
| MsgErrorScraping (tag : string) (e : exn)
| MsgNoTweetsFound
| MsgSaved (n : nat).

(** What the [try] of the loop body reads from a container before it looks
    at [seen_hashes]. *)
Record extracted : Type := {
  x_content : string;
  x_timestamp : option string;
  x_username : string;
  x_likes : Z;
  x_retweets : Z
}.

(** Lines 72 to 86; [Ok None] is the [continue] of a container without
    text. *)
Definition extract (b : block) : outcome (option extracted) :=
  content ← inner_text b;
  if String.eqb (strip content) "" then Ok None
  else
    time_tag ← time_datetime b;
    let timestamp := match time_tag with Some a => a | None => Some "N/A" end in
    user_tag ← user_name b;
    let username := match user_tag with Some u => u | None => "N/A" end in
    like_span ← like_text b;
    likes ← match like_span with Some t => parse_count t | None => Ok 0 end;
    retweet_span ← retweet_text b;
    retweets ← match retweet_span with Some t => parse_count t | None => Ok 0 end;
    Ok (Some {| x_content := content; x_timestamp := timestamp;
                x_username := username; x_likes := likes; x_retweets := retweets |}).

(** Lines 88 and 95 to 104. *)
Definition make_tweet (tag : string) (x : extracted) : tweet :=
  let '(mentions, hashtags) := extract_entities (x_content x) in
  {| hashtag := tag;
     username := x_username x;
     timestamp := x_timestamp x;
     content := replace "010" " " (x_content x); (* "010" is the newline *)
     likes := x_likes x;
     retweets := x_retweets x;
     mentions := join ", " mentions;
     hashtags := join ", " hashtags |}.

Definition tweet_hash `{Hashlib} (x : extracted) : string :=
  get_tweet_hash (x_username x) (x_timestamp x) (x_content x).

(** The variables of [scroll_and_collect_tweets] that change: the list it
    builds, the set it shares with its caller, and the log file. *)
Record loop_state : Type := {
  tweets_data : list tweet;
  seen_hashes : gset string;
  log : list (level * message)
}.

Definition logging (lv : level) (m : message) (st : loop_state) : loop_state :=
  {| tweets_data := tweets_data st;
     seen_hashes := seen_hashes st;
     log := log st ++ [(lv, m)] |}.

Definition len (st : loop_state) : Z := Z.of_nat (List.length (tweets_data st)).

(** The body of [for block in tweet_blocks]; the boolean is [true] when the
    function returns from inside it. *)
Definition process_block `{Hashlib} (tag : string) (max_tweets : Z)
  (st : loop_state) (b : block) : loop_state * bool :=
  match extract b with
  | Raise e => (logging WARNING (MsgSkipped tag e) st, false)
  | Ok None => (st, false)
  | Ok (Some x) =>
      if decide (tweet_hash x ∈ seen_hashes st) then (st, false)
      else
        let st := {| tweets_data := tweets_data st ++ [make_tweet tag x];
                     seen_hashes := {[ tweet_hash x ]} ∪ seen_hashes st;
                     log := log st |} in
        let st := if len st mod 100 =? 0
                  then logging INFO (MsgCollected tag (List.length (tweets_data st))) st
                  else st in
        if len st >=? max_tweets
        then (logging INFO (MsgReachedMax tag max_tweets) st, true)
        else (st, false)
  end.

Fixpoint for_blocks `{Hashlib} (tag : string) (max_tweets : Z)
  (tweet_blocks : list block) (st : loop_state) : loop_state * bool :=
  match tweet_blocks with
  | [] => (st, false)
  | b :: rest =>
      let '(st, returned) := process_block tag max_tweets st b in
      if returned then (st, true) else for_blocks tag max_tweets rest st
  end.

(** The page during one visit: at scroll [n] the wheel, the wait and
    [query_selector_all] give the containers then visible, or one of them
    raises. *)
Definition feed : Type := Z -> outcome (list block).

(** [for scroll_num in range(max_scrolls)], [fuel] iterations from
    [scroll_num] on; [Some e] is an exception that leaves the function. *)
Fixpoint for_scrolls `{Hashlib} (page : feed) (tag : string) (max_tweets : Z)
  (fuel : nat) (scroll_num : Z) (st : loop_state) : loop_state * option exn :=
  match fuel with
  | O => (st, None)
  | S fuel =>
      match page scroll_num with
      | Raise e => (st, Some e)
      | Ok tweet_blocks =>
          let st := logging INFO (MsgScroll tag (scroll_num + 1) (List.length tweet_blocks)) st in
          let '(st, returned) := for_blocks tag max_tweets tweet_blocks st in
          if returned then (st, None)
          else for_scrolls page tag max_tweets fuel (scroll_num + 1) st
      end
  end.

(** The result is the returned list or the exception, with [seen_hashes] and
    the log as the call leaves them. *)
Definition scroll_and_collect_tweets `{Hashlib} (page : feed) (tag : string)
  (seen : gset string) (lg : list (level * message)) (max_tweets max_scrolls : Z)
  : outcome (list tweet) * gset string * list (level * message) :=
  let st := {| tweets_data := []; seen_hashes := seen; log := lg |} in
  let '(st, raised) := for_scrolls page tag max_tweets (Z.to_nat max_scrolls) 0 st in
  (match raised with None => Ok (tweets_data st) | Some e => Raise e end,
   seen_hashes st, log st).

(** *** The run over several hashtags *)

(** The search page of one hashtag: [goto] and the wait that follows it,
    then the feed. *)
Record visit : Type := {
  goto : outcome unit;
  scrolls : feed
}.

(** The browser of one run: [launch] is everything up to [new_page], [open i
    url] the page that the [i]-th navigation, to [url], gives. *)
Record browser : Type := {
  launch : outcome unit;
  open : nat -> string -> visit;
  close : outcome unit
}.

Inductive printed : Type :=
| PrintNoTweets
| PrintSaved (n : nat) (csv_path parquet_path : string).



Definition search_url (tag : string) : string :=
  let query := replace "#" "%23" tag in
  "https://twitter.com/search?q=" ++ query ++ "&src=typed_query&f=live".






End Scrapper.

(** ** signals.py: the Aggregator *)

(** The arithmetic of the aggregation, the operations that
    [compute_aggregated_signals] applies to its numbers: conversion of an
    [int], the nearest value to a fraction [n / d] (a decimal literal, or the
    quotient of two [int]s), sum, product, quotient, strict comparison and
    [round(x, ndigits)]. *)
Class Arith (F : Type) : Type := {
  of_int : Z -> F;
  ratio : Z -> positive -> F;
  add : F -> F -> F;
  mul : F -> F -> F;
  div : F -> F -> F;
  ltb : F -> F -> bool;
  round : F -> Z -> F
}.

(** The arithmetic the program runs with. *)
#[global] Instance binary64 : Arith spec_float := {
  of_int := Float.of_Z;
  ratio := Float.ratio;
  add := Float.add;
  mul := Float.mul;
  div := Float.div;
  ltb := Float.ltb;
  round := Float.round
}.

(** [round(x, ndigits)] on the rationals, ties to even. *)
Definition Qrint (x : Q) : Z :=
  let q := Qfloor x in
  match Qcompare (x - inject_Z q) (1 # 2) with
  | Lt => q
  | Gt => q + 1
  | Eq => if Z.even q then q else q + 1
  end.

Definition Qround_nd (x : Q) (ndigits : Z) : Q :=
  (inject_Z (Qrint (x * inject_Z (10 ^ ndigits))) / inject_Z (10 ^ ndigits))%Q.

(** The same operations without rounding error, on the rationals: what the
    formulas of the source denote. *)
#[global] Instance exact : Arith Q := {
  of_int := inject_Z;
  ratio := Qmake;
  add := Qplus;
  mul := Qmult;
  div := Qdiv;
  ltb := fun x y => match Qcompare x y with Lt => true | _ => false end;
  round := Qround_nd
}.

(** A [pandas.Timestamp]: the day, as [date.toordinal()] counts it, and the
    time of day. *)
Record Timestamp : Type := {
  day : Z;
  nanosecond : Z
}.

(** [pd.to_datetime(column, errors="coerce")], a function of the library:
    [None] is [NaT]. *)
Class Pandas := to_datetime : list string -> list (option Timestamp).

Module Signals.
Import PyStr.

Section Aggregator.
Context {F : Type} `{Arith F}.

(** Signal rules *)
Definition buy_threshold : F := ratio 65 100.
Definition sell_threshold : F := ratio 35 100.

Definition buy_keywords : list string :=
  ["buy"; "bullish"; "long"; "breakout"; "target"; "support"].
Definition sell_keywords : list string :=
  ["sell"; "bearish"; "short"; "resistance"; "fall"; "downside"].

Definition classify_sentiment (text : string) : string :=
  let text := lower text in
  let buy_score := count_in buy_keywords text in
  let sell_score := count_in sell_keywords text in
  if buy_score >? sell_score then "buy"
  else if sell_score >? buy_score then "sell"
  else "neutral".

(** A row of the table that [main] reads: the columns it uses. *)
Record record : Type := {
  content : string;
  timestamp : string;
  keyword_score : Z
}.

(** A row of the table that [main] groups: its index label and the columns
    added to it. *)
Record post : Type := {
  index : nat;
  source : record;
  datetime : Timestamp;
  date : Z;
  sentiment : string
}.

(** A row of the result. *)
Record DailySignal : Type := {
  tweet_volume : Z;
  buy_pct : F;
  sell_pct : F;
  neutral_pct : F;
  avg_keyword_score : F;
  composite_score : F;
  signal : string;
  confidence_pct : F
}.

(** [(group['sentiment'] == value).sum()] *)
Definition count_sentiment (value : string) (group : list post) : Z :=
  Z.of_nat (List.length (List.filter (fun p => String.eqb (sentiment p) value) group)).

(** [group["keyword_score"].mean()]: the sum and the count as floats, then
    their quotient. *)
Definition mean_keyword_score (group : list post) : F :=
  div (of_int (fold_right Z.add 0 (map (fun p => keyword_score (source p)) group)))
      (of_int (Z.of_nat (List.length group))).

(** [min(a, b)] of Python: [b] when [b < a], else [a]. *)
Definition py_min (a b : F) : F := if ltb b a then b else a.

Definition total (group : list post) : Z := Z.of_nat (List.length group).

Definition pct (value : string) (group : list post) : F :=
  div (of_int (count_sentiment value group)) (of_int (total group)).

(** Line 86: the weighted score, before any rounding. *)
Definition score (group : list post) : F :=
  let buy_pct := pct "buy" group in
  let avg_keyword := mean_keyword_score group in
  add (add (mul (ratio 5 10) buy_pct)
           (mul (ratio 3 10) (div avg_keyword (of_int 5))))
      (mul (ratio 2 10) (py_min (ratio (total group) 500) (ratio 10 10))).

(** Line 87. *)
Definition signal_of (score : F) : string :=
  if ltb buy_threshold score then "buy"
  else if ltb score sell_threshold then "sell"
  else "neutral".

Definition compute_aggregated_signals (group : list post) : DailySignal :=
  if total group =? 0 then
    {| tweet_volume := 0;
       buy_pct := of_int 0;
       sell_pct := of_int 0;
       neutral_pct := of_int 0;
       avg_keyword_score := of_int 0;
       composite_score := of_int 0;
       signal := "neutral";
       confidence_pct := of_int 0 |}
  else
    let score := score group in
    {| tweet_volume := total group;
       buy_pct := round (pct "buy" group) 3;
       sell_pct := round (pct "sell" group) 3;
       neutral_pct := round (pct "neutral" group) 3;
       avg_keyword_score := round (mean_keyword_score group) 2;
       composite_score := round score 3;
       signal := signal_of score;
       confidence_pct := round (mul score (of_int 100)) 1 |}.

(** *** Aggregation *)

Context `{Pandas}.

(** Lines 119 to 122: the rows whose timestamp parsed, each with its date
    and its sentiment. [i] is the index label of the first row of [rows]
    and [datetimes] the converted column from that row on; a row beyond the
    end of the column has no date. *)
Fixpoint dated (i : nat) (rows : list record) (datetimes : list (option Timestamp))
  : list post :=
  match rows with
  | [] => []
  | r :: rows' =>
      let rest := dated (S i) rows' (tl datetimes) in
      match hd None datetimes with
      | Some dt =>
          {| index := i; source := r; datetime := dt; date := day dt;
             sentiment := classify_sentiment (content r) |} :: rest
      | None => rest
      end
  end.

(** The keys of [df.groupby("date")]: the dates present, each once, in
    increasing order. *)
Definition group_keys (df : list post) : list Z :=
  merge_sort Z.le (remove_dups (map date df)).

(** The group of one key: its rows, in the order of the table. *)
Definition get_group (df : list post) (d : Z) : list post :=
  List.filter (fun p => date p =? d) df.

(** [df.groupby("date").apply(compute_aggregated_signals).reset_index()] *)
Definition aggregate (df : list post) : list (Z * DailySignal) :=
  map (fun d => (d, compute_aggregated_signals (get_group df d))) (group_keys df).

Inductive input_file : Type :=
| Missing
| Unreadable (e : exn)
| Table (rows : list record).

Inductive log_message : Type :=
| MsgInputNotFound
| MsgLoading
| MsgClassifying (n : nat)
| MsgAggregating
| MsgSaving
| MsgComplete.

Inductive printed : Type :=
| PrintFileMissing
| PrintSaved (n : nat).

(** What a call of [main] leaves: the log, the console and, when it is
    written, [signals/daily_aggregated_signals.csv]. *)
Record result : Type := {
  log : list (Scrapper.level * log_message);
  stdout : list printed;
  output_file : option (list (Z * DailySignal))
}.

Definition main (input : input_file) : outcome result :=
  match input with
  | Missing =>
      Ok {| log := [(Scrapper.ERROR, MsgInputNotFound)];
            stdout := [PrintFileMissing];
            output_file := None |}
  | Unreadable e => Raise e
  | Table rows =>
      let df := dated 0 rows (to_datetime (map timestamp rows)) in
      let aggregated := aggregate df in
      Ok {| log := [(Scrapper.INFO, MsgLoading);
                    (Scrapper.INFO, MsgClassifying (List.length rows));
                    (Scrapper.INFO, MsgAggregating);
                    (Scrapper.INFO, MsgSaving);
                    (Scrapper.INFO, MsgComplete)];
            stdout := [PrintSaved (List.length aggregated)];
            output_file := Some aggregated |}
  end.

End Aggregator.

End Signals.

(** * Examples

    The properties above hold for every digest and every date parser. The
    examples below run the program with two simple ones. *)

Module Examples.
Import PyStr Scrapper.

(** A digest without collisions: the text itself. *)
Definition identity_digest : Hashlib := fun s => s.

(** [read_digits n s]: the number written by the first [n] characters of
    [s], all digits, and the rest of [s]. *)
Fixpoint read_digits (n : nat) (acc : Z) (s : string) : option (Z * string) :=
  match n, s with
  | O, _ => Some (acc, s)
  | S n, String c t =>
      if is_digit c then read_digits n (10 * acc + digit_val c) t else None
  | S _, EmptyString => None
  end.

Definition is_leap (y : Z) : bool :=
  (y mod 4 =? 0) && (negb (y mod 100 =? 0) || (y mod 400 =? 0)).

Definition days_in_month (y m : Z) : Z :=
  if m =? 2 then (if is_leap y then 29 else 28)
  else if (m =? 4) || (m =? 6) || (m =? 9) || (m =? 11) then 30
  else 31.

(** [date(y, m, d).toordinal()] *)
Definition toordinal (y m d : Z) : Z :=
  let before_year := (y - 1) * 365 + (y - 1) / 4 - (y - 1) / 100 + (y - 1) / 400 in
  let before_month :=
    fold_right Z.add 0 (map (days_in_month y) (map Z.of_nat (seq 1 (Z.to_nat (m - 1))))) in
  before_year + before_month + d.

(** A date parser for timestamps of the form [YYYY-MM-DD...], as the feed
    writes them; any other text is [NaT]. *)
Definition iso_date (s : string) : option Timestamp :=
  '(y, s) ← read_digits 4 0 s;
  match s with
  | String "-" s =>
      '(m, s) ← read_digits 2 0 s;
      match s with
      | String "-" s =>
          '(d, _) ← read_digits 2 0 s;
          if (1 <=? y) && (1 <=? m) && (m <=? 12) && (1 <=? d) && (d <=? days_in_month y m)
          then Some {| day := toordinal y m d; nanosecond := 0 |}
          else None
      | _ => None
      end
  | _ => None
  end.

Definition iso_to_datetime : Pandas := map iso_date.

Lemma toordinal_examples :
  toordinal 1 1 1 = 1 /\ toordinal 2024 2 29 = 738945 /\ toordinal 2025 8 1 = 739464.
Proof. by vm_compute. Qed.

(** Containers of a page. *)
Definition post_alice : block :=
  {| inner_text := Ok "Nifty breakout @trader #nifty50 target 25000";
     time_datetime := Ok (Some (Some "2025-08-01T10:00:00.000Z"));
     user_name := Ok (Some "alice");
     like_text := Ok (Some "1.2K");
     retweet_text := Ok None |}.

Definition post_bob : block :=
  {| inner_text := Ok "Bank nifty falls";
     time_datetime := Ok (Some (Some "2025-08-01T11:00:00.000Z"));
     user_name := Ok (Some "bob");
     like_text := Ok (Some "7");
     retweet_text := Ok (Some "3") |}.

Definition blank : block :=
  {| inner_text := Ok "   ";
     time_datetime := Ok None;
     user_name := Ok None;
     like_text := Ok None;
     retweet_text := Ok None |}.

Definition detached : block :=
  {| inner_text := Raise (PlaywrightError "detached");
     time_datetime := Ok None;
     user_name := Ok None;
     like_text := Ok None;
     retweet_text := Ok None |}.

(** A page that shows the same posts again after a scroll, in another
    order. *)
Definition page : feed := fun n =>
  if n =? 0 then Ok [post_alice; blank; post_bob]
  else if n =? 1 then Ok [post_bob; detached; post_alice]
  else Ok [].

Definition tweet_alice : tweet :=
  {| hashtag := "#nifty50"; username := "alice";
     timestamp := Some "2025-08-01T10:00:00.000Z";
     content := "Nifty breakout @trader #nifty50 target 25000";
     likes := 1200; retweets := 0;
     mentions := "@trader"; hashtags := "#nifty50" |}.



(** With a cap of one record the call returns at the first post. *)
Lemma collect_page_capped :
  (scroll_and_collect_tweets (H := identity_digest) page "#nifty50" ∅ [] 1 150).1
  = (Ok [tweet_alice],
     {[ "alice|2025-08-01T10:00:00.000Z|Nifty breakout @trader #nifty50 target 25000" ]}).
Proof. by vm_compute. Qed.

(** A browser that shows [page] for every hashtag, and one that shows
    nothing. *)
Definition chromium : browser :=
  {| launch := Ok tt;
     open := fun _ _ => {| goto := Ok tt; scrolls := page |};
     close := Ok tt |}.


End Examples.

(** * Properties *)

(** ** The Sentiment Classifier *)

Section Classifier.
Import PyStr Signals.





End Classifier.


(** ** The Count Parser *)

Section StringFacts.
Import PyStr.

(** [occurs c s]: the character [c] occurs in [s], which is [c in s]. *)
Definition occurs (c : ascii) (s : string) : bool := contains (String c "") s.
Arguments occurs : simpl never.

Lemma app_cons a (s t : string) : String a s ++ t = String a (s ++ t).
Proof. reflexivity. Qed.

Lemma app_nil (t : string) : "" ++ t = t.
Proof. reflexivity. Qed.

Lemma app_assoc_str (r s t : string) : r ++ (s ++ t) = (r ++ s) ++ t.
Proof. induction r as [|b r IH]; [done|]. by rewrite !app_cons, IH. Qed.

Lemma occurs_cons c a s : occurs c (String a s) = Ascii.eqb a c || occurs c s.
Proof.
  unfold occurs. simpl. destruct (ascii_dec c a) as [->|Hne].
  - rewrite Ascii.eqb_refl. by destruct s.
  - destruct (Ascii.eqb_spec a c); [congruence|done].
Qed.

Lemma occurs_nil c : occurs c "" = false.
Proof. reflexivity. Qed.

Lemma occurs_app c s t : occurs c (s ++ t) = occurs c s || occurs c t.
Proof.
  induction s as [|a s IH]; [done|]. rewrite app_cons.
  by rewrite !occurs_cons, IH, orb_assoc.
Qed.


Lemma replace_absent c r s : occurs c s = false -> replace c r s = s.
Proof.
  induction s as [|a s IH]; simpl; [done|].
  rewrite occurs_cons. intros [-> Hs]%orb_false_elim. by rewrite IH.
Qed.

Lemma occurs_remove c d s : occurs c (replace d "" s) = negb (Ascii.eqb c d) && occurs c s.
Proof.
  induction s as [|a s IH]; simpl; [by rewrite andb_false_r|].
  destruct (Ascii.eqb_spec a d) as [->|Had]; simpl.
  - rewrite app_nil, IH, occurs_cons. destruct (Ascii.eqb_spec d c) as [->|Hdc].
    + by rewrite Ascii.eqb_refl.
    + done.
  - rewrite !occurs_cons, IH.
    destruct (Ascii.eqb_spec a c) as [->|Hac]; simpl; [|done].
    destruct (Ascii.eqb_spec c d); [congruence|done].
Qed.


Lemma occurs_lstrip c s : occurs c s = false -> occurs c (lstrip s) = false.
Proof.
  induction s as [|a s IH]; simpl; [done|].
  destruct (is_space a); [|done].
  rewrite occurs_cons. intros [_ Hs]%orb_false_elim. auto.
Qed.

Lemma occurs_rstrip c s : occurs c s = false -> occurs c (rstrip s) = false.
Proof.
  induction s as [|a s IH]; simpl; [done|].
  rewrite occurs_cons. intros [Ha Hs]%orb_false_elim. specialize (IH Hs).
  destruct (rstrip s) as [|b u].
  - destruct (is_space a); [done|]. by rewrite occurs_cons, Ha.
  - by rewrite occurs_cons, Ha, IH.
Qed.

Lemma occurs_strip c s : occurs c s = false -> occurs c (strip s) = false.
Proof. intros. by apply occurs_rstrip, occurs_lstrip. Qed.







End StringFacts.

Section CountParser.
Import PyStr PyNum Scrapper.











(** *** Signs *)

(** A float that [int] cannot turn into a negative integer. *)
Definition not_negative (x : spec_float) : Prop :=
  match x with
  | S754_finite true _ _ => False
  | _ => True
  end.

Lemma round_aux_sign m e l :
  not_negative (binary_round_aux Float.prec Float.emax false m e l).
Proof.
  unfold binary_round_aux.
  destruct (shr_fexp _ _ m e l) as [mrs' e'].
  destruct (shr_fexp _ _ _ e' loc_Exact) as [mrs'' e''].
  destruct (shr_m mrs''); simpl; [done| |done].
  by destruct (e'' <=? Float.emax - Float.prec).
Qed.

Lemma of_decimal_sign m e : not_negative (Float.of_decimal false m e).
Proof.
  unfold Float.of_decimal. destruct m as [|p|p]; try done.
  destruct (0 <=? e).
  - unfold binary_round. destruct (shl_align _ _ _) as [mz ez].
    apply round_aux_sign.
  - unfold Float.div, SFdiv. destruct (SFdiv_core_binary _ _ _ _ _ _) as [[mz ez] lz].
    apply round_aux_sign.
Qed.

Lemma mul_sign x m e :
  not_negative x -> not_negative (Float.mul x (S754_finite false m e)).
Proof.
  destruct x as [[]|[]|  |[] mx ex]; simpl; try done.
  intros _. apply round_aux_sign.
Qed.

Lemma to_int_sign x n : not_negative x -> Float.to_int x = Ok n -> 0 <= n.
Proof.
  destruct x as [s|s| |[] m e]; simpl; try done.
  - intros _ [= <-]. lia.
  - intros _ [= <-]. destruct (Z.leb_spec 0 e) as [He|He].
    + apply Z.mul_nonneg_nonneg; [done|]. by apply Z.pow_nonneg.
    + apply Z.div_pos; [done|]. apply Z.pow_pos_nonneg; lia.
Qed.

Lemma split_sign_minus s : fst (split_sign s) = true -> occurs "-" s = true.
Proof.
  destruct s as [|a t]; simpl; [done|].
  destruct a as [[] [] [] [] [] [] [] []]; simpl; try done.
  intros _. by rewrite occurs_cons.
Qed.

Lemma split_sign_occurs c s : occurs c s = false -> occurs c (snd (split_sign s)) = false.
Proof.
  destruct s as [|a t]; simpl; [done|].
  rewrite occurs_cons. intros [Ha Ht]%orb_false_elim.
  destruct a as [[] [] [] [] [] [] [] []]; simpl; try done; by rewrite occurs_cons, Ha.
Qed.

Lemma digit_val_nonneg c : is_digit c = true -> 0 <= digit_val c.
Proof.
  unfold is_digit, digit_val. intros [H1 _]%andb_prop.
  apply N.leb_le in H1. lia.
Qed.

Lemma scan_digits_nonneg s : forall prev acc k v k' r,
  0 <= acc -> scan_digits prev acc k s = Some (v, k', r) -> 0 <= v.
Proof.
  induction s as [|c s IH]; intros prev acc k v k' r Hacc; simpl.
  - destruct prev; [done|]. by intros [= <- _ _].
  - destruct (is_digit c) eqn:Hd.
    + apply IH. pose proof (digit_val_nonneg c Hd). lia.
    + destruct (Ascii.eqb c "_").
      * destruct prev; [done|]. by apply IH.
      * destruct prev; [done|]. by intros [= <- _ _].
Qed.

Lemma digits_nonneg s v k r : digits s = Some (v, k, r) -> 0 <= v.
Proof.
  unfold digits. destruct s as [|c s]; [by intros [= <- _ _]|].
  destruct (is_digit c); [|by intros [= <- _ _]].
  by apply scan_digits_nonneg.
Qed.

Lemma int_of_str_sign s n : occurs "-" s = false -> int_of_str s = Ok n -> 0 <= n.
Proof.
  intros Hs. unfold int_of_str.
  pose proof (split_sign_minus (strip s)) as Hneg.
  rewrite (occurs_strip _ _ Hs) in Hneg.
  destruct (split_sign (strip s)) as [neg body]. simpl in Hneg.
  destruct neg; [by discriminate Hneg|].
  destruct (digits body) as [[[v k] r]|] eqn:E; [|done].
  destruct k; [done|]. destruct r; [|done].
  intros [= <-]. by eapply digits_nonneg.
Qed.

Lemma float_of_str_sign s x :
  occurs "-" s = false -> float_of_str s = Ok x -> not_negative x.
Proof.
  intros Hs. unfold float_of_str.
  pose proof (split_sign_minus (strip s)) as Hneg.
  rewrite (occurs_strip _ _ Hs) in Hneg.
  destruct (split_sign (strip s)) as [neg body]. simpl in Hneg.
  destruct neg; [by discriminate Hneg|].
  destruct (_ || _); [by intros [= <-]|].
  destruct (String.eqb _ _); [by intros [= <-]|].
  destruct (numeral body) as [[m e]|]; [|done].
  intros [= <-]. apply of_decimal_sign.
Qed.

Lemma scaled_sign s k m e n :
  occurs "-" s = false -> Float.of_Z k = S754_finite false m e ->
  (f ← float_of_str s; Float.to_int (Float.mul f (Float.of_Z k))) = Ok n -> 0 <= n.
Proof.
  intros Hs Hk. destruct (float_of_str s) as [f|] eqn:E; simpl; [|done].
  rewrite Hk. apply to_int_sign, mul_sign. by eapply float_of_str_sign.
Qed.

Lemma parse_count_try_sign text n :
  occurs "-" text = false -> parse_count_try text = Ok n -> 0 <= n.
Proof.
  intros Hm. unfold parse_count_try.
  set (t := strip (replace "," "" text)).
  assert (Ht : occurs "-" t = false).
  { apply occurs_strip. by rewrite occurs_remove, Hm. }
  destruct (contains "K" t).
  - eapply scaled_sign; [|by vm_compute]. by rewrite occurs_remove, Ht.
  - destruct (contains "M" t).
    + eapply scaled_sign; [|by vm_compute]. by rewrite occurs_remove, Ht.
    + by apply int_of_str_sign.
Qed.

(** C6, as the code has it: [parse_count] answers an integer for every text
    and never raises; the integer is not negative when the text has no minus
    sign. *)
Theorem parse_count_total text :
  exists n, parse_count text = Ok n /\ (occurs "-" text = false -> 0 <= n).
Proof.
  unfold parse_count. destruct (parse_count_try text) as [n|e] eqn:E.
  - exists n. split; [done|]. intros Hm. by eapply parse_count_try_sign.
  - exists 0. split; [done|]. lia.
Qed.

(** C6 as stated fails: a text with a minus sign is read as a negative
    count. *)
Lemma parse_count_negative :
  parse_count "-5" = Ok (-5) /\ parse_count "-1.5K" = Ok (-1500) /\ ~ (0 <= -5).
Proof. split; [|split]; [by vm_compute..|lia]. Qed.

End CountParser.


Lemma parse_count_total_witness :
  exists n, Scrapper.parse_count "1,234" = Ok n /\ 0 <= n.
Proof.
  destruct (parse_count_total "1,234") as (n & Hn & Hpos).
  exists n. split; [exact Hn|]. apply Hpos. reflexivity.
Defined.

(** ** The Collector *)

Section Collector.
Context `{Hashlib}.
Import PyStr Scrapper.
Local Open Scope list_scope.


Definition nonblank (x : extracted) : Prop := strip (x_content x) <> "".

(** The candidate record that a container yields, if it yields one. *)
Definition candidate (b : block) : option extracted :=
  match extract b with
  | Ok (Some x) => Some x
  | _ => None
  end.

Definition candidates (blocks : list block) : list extracted := omap candidate blocks.

(** The containers that the page shows during [fuel] scrolls from
    [scroll_num] on, up to the first scroll that raises. *)
Fixpoint visible (page : feed) (fuel : nat) (scroll_num : Z) : list block :=
  match fuel with
  | O => []
  | S fuel =>
      match page scroll_num with
      | Raise _ => []
      | Ok tweet_blocks => tweet_blocks ++ visible page fuel (scroll_num + 1)
      end
  end.

(** The invariant of the loops: [kept] are the candidates retained since the
    call began with the set [seen0]. *)
Record collected (tag : string) (seen0 : gset string) (st : loop_state)
  (kept : list extracted) : Prop := {
  col_data : tweets_data st = make_tweet tag <$> kept;
  col_seen : seen_hashes st = list_to_set (tweet_hash <$> kept) ∪ seen0;
  col_nodup : NoDup (tweet_hash <$> kept);
  col_fresh : forall x, x ∈ kept -> tweet_hash x ∉ seen0;
  col_text : forall x, x ∈ kept -> nonblank x
}.

Lemma collected_start tag seen0 lg :
  collected tag seen0 {| tweets_data := []; seen_hashes := seen0; log := lg |} [].
Proof.
  split; simpl; try done.
  - by rewrite (left_id_L ∅ (∪)).
  - constructor.
  - intros x Hx. by apply elem_of_nil in Hx.
  - intros x Hx. by apply elem_of_nil in Hx.
Qed.

Lemma collected_logging tag seen0 st kept lv m :
  collected tag seen0 st kept -> collected tag seen0 (logging lv m st) kept.
Proof. intros [? ? ? ? ?]. by split. Qed.

Lemma extract_text b x :
  extract b = Ok (Some x) -> inner_text b = Ok (x_content x) /\ nonblank x.
Proof.
  unfold extract, nonblank. destruct (inner_text b) as [content|e]; simpl; [|done].
  destruct (String.eqb_spec (strip content) "") as [E|E]; [done|].
  destruct (time_datetime b); simpl; [|done].
  destruct (user_name b); simpl; [|done].
  destruct (like_text b) as [[t|]|]; simpl; [| |done].
  - destruct (parse_count t); simpl; [|done].
    destruct (retweet_text b) as [[t'|]|]; simpl; [| |done].
    + destruct (parse_count t'); simpl; [|done]. by intros [= <-].
    + by intros [= <-].
  - destruct (retweet_text b) as [[t'|]|]; simpl; [| |done].
    + destruct (parse_count t'); simpl; [|done]. by intros [= <-].
    + by intros [= <-].
Qed.

(** One container adds at most its own candidate to the retained ones. *)
Lemma process_block_collected tag seen0 max_tweets st kept b :
  collected tag seen0 st kept ->
  exists new,
    collected tag seen0 (process_block tag max_tweets st b).1 (kept ++ new) /\
    new `sublist_of` candidates [b].
Proof.
  intros Hc. unfold process_block, candidates, candidate. simpl omap.
  destruct (extract b) as [[x|]|e] eqn:E; simpl.
  - destruct (decide (tweet_hash x ∈ seen_hashes st)) as [Hin|Hnew]; simpl.
    { exists []. rewrite app_nil_r. split; [done|]. apply sublist_nil_l. }
    exists [x]. split; [|done].
    assert (Hc' : collected tag seen0
              {| tweets_data := tweets_data st ++ [make_tweet tag x];
                 seen_hashes := {[tweet_hash x]} ∪ seen_hashes st;
                 log := log st |} (kept ++ [x])).
    { destruct Hc as [Hd Hs Hn Hf Ht]. rewrite Hs in Hnew. split; simpl.
      - by rewrite Hd, fmap_app.
      - rewrite Hs, fmap_app. simpl. apply set_eq. intros h.
        rewrite !elem_of_union, !elem_of_list_to_set, elem_of_app.
        rewrite list_elem_of_singleton, elem_of_singleton. tauto.
      - rewrite fmap_app. apply NoDup_app. split; [done|]. split.
        + intros h Hh Hh'. apply list_elem_of_singleton in Hh'. subst h.
          apply Hnew. apply elem_of_union_l. by apply elem_of_list_to_set.
        + apply NoDup_singleton.
      - intros y [Hy|Hy]%elem_of_app; [by apply Hf|].
        apply list_elem_of_singleton in Hy. subst y.
        intros Hin. apply Hnew. by apply elem_of_union_r.
      - intros y [Hy|Hy]%elem_of_app; [by apply Ht|].
        apply list_elem_of_singleton in Hy. subst y. by eapply extract_text. }
    repeat match goal with |- context [if ?c then _ else _] => destruct c end;
      simpl; auto using collected_logging.
  - exists []. rewrite app_nil_r. split; [done|]. apply sublist_nil_l.
  - exists []. rewrite app_nil_r. split; [by apply collected_logging|]. apply sublist_nil_l.
Qed.

Lemma candidates_app l1 l2 : candidates (l1 ++ l2) = candidates l1 ++ candidates l2.
Proof. unfold candidates. apply omap_app. Qed.

Lemma for_blocks_collected tag seen0 max_tweets blocks : forall st kept,
  collected tag seen0 st kept ->
  exists new,
    collected tag seen0 (for_blocks tag max_tweets blocks st).1 (kept ++ new) /\
    new `sublist_of` candidates blocks.
Proof.
  induction blocks as [|b blocks IH]; intros st kept Hc; simpl.
  - exists []. rewrite app_nil_r. split; [done|]. apply sublist_nil_l.
  - destruct (process_block_collected tag seen0 max_tweets st kept b Hc)
      as (new1 & Hc1 & Hs1).
    destruct (process_block tag max_tweets st b) as [st1 returned]. simpl in Hc1.
    pose proof (candidates_app [b] blocks) as Hcand.
    destruct returned; simpl.
    + exists new1. split; [done|]. simpl in Hcand. rewrite Hcand.
      by apply sublist_inserts_r.
    + destruct (IH st1 (kept ++ new1) Hc1) as (new2 & Hc2 & Hs2).
      exists (new1 ++ new2). rewrite app_assoc. split; [done|].
      simpl in Hcand. rewrite Hcand. by apply sublist_app.
Qed.

Lemma for_scrolls_collected page tag seen0 max_tweets fuel : forall scroll_num st kept,
  collected tag seen0 st kept ->
  exists new,
    collected tag seen0 (for_scrolls page tag max_tweets fuel scroll_num st).1 (kept ++ new) /\
    new `sublist_of` candidates (visible page fuel scroll_num).
Proof.
  induction fuel as [|fuel IH]; intros scroll_num st kept Hc; simpl.
  - exists []. rewrite app_nil_r. split; [done|]. apply sublist_nil_l.
  - destruct (page scroll_num) as [blocks|e]; simpl.
    2:{ exists []. rewrite app_nil_r. split; [done|]. apply sublist_nil_l. }
    set (st0 := logging INFO _ st).
    assert (Hc0 : collected tag seen0 st0 kept) by by apply collected_logging.
    destruct (for_blocks_collected tag seen0 max_tweets blocks st0 kept Hc0)
      as (new1 & Hc1 & Hs1).
    destruct (for_blocks tag max_tweets blocks st0) as [st1 returned]. simpl in Hc1.
    destruct returned; simpl.
    + exists new1. split; [done|]. rewrite candidates_app.
      by apply sublist_inserts_r.
    + destruct (IH (scroll_num + 1) st1 (kept ++ new1) Hc1) as (new2 & Hc2 & Hs2).
      exists (new1 ++ new2). rewrite app_assoc. split; [done|].
      rewrite candidates_app. by apply sublist_app.
Qed.


(** What one call of [scroll_and_collect_tweets] retains. *)
Lemma scroll_and_collect_retains page tag seen0 lg max_tweets max_scrolls :
  exists kept,
    collected tag seen0
      (for_scrolls page tag max_tweets (Z.to_nat max_scrolls) 0
         {| tweets_data := []; seen_hashes := seen0; log := lg |}).1 kept /\
    kept `sublist_of` candidates (visible page (Z.to_nat max_scrolls) 0).
Proof.
  destruct (for_scrolls_collected page tag seen0 max_tweets (Z.to_nat max_scrolls) 0
              _ [] (collected_start tag seen0 lg)) as (new & Hc & Hs).
  by exists new.
Qed.

Lemma returned_list page tag seen0 lg max_tweets max_scrolls out :
  (scroll_and_collect_tweets page tag seen0 lg max_tweets max_scrolls).1.1 = Ok out ->
  out = tweets_data
          (for_scrolls page tag max_tweets (Z.to_nat max_scrolls) 0
             {| tweets_data := []; seen_hashes := seen0; log := lg |}).1.
Proof.
  unfold scroll_and_collect_tweets.
  destruct (for_scrolls _ _ _ _ _ _) as [st [e|]]; simpl; [done|]. by intros [= <-].
Qed.

Lemma returned_seen page tag seen0 lg max_tweets max_scrolls :
  (scroll_and_collect_tweets page tag seen0 lg max_tweets max_scrolls).1.2 =
  seen_hashes
    (for_scrolls page tag max_tweets (Z.to_nat max_scrolls) 0
       {| tweets_data := []; seen_hashes := seen0; log := lg |}).1.
Proof.
  unfold scroll_and_collect_tweets. by destruct (for_scrolls _ _ _ _ _ _) as [st [e|]].
Qed.




(** *** The run over several hashtags *)









(** *** Containers without text *)

Fixpoint all_space (s : string) : bool :=
  match s with
  | EmptyString => true
  | String a t => is_space a && all_space t
  end.

Lemma lstrip_empty s : lstrip s = "" <-> all_space s = true.
Proof.
  induction s as [|a s IH]; simpl; [done|].
  destruct (is_space a); simpl; [done|]. split; discriminate.
Qed.

Lemma rstrip_empty s : rstrip s = "" <-> all_space s = true.
Proof.
  induction s as [|a s IH]; simpl; [done|].
  destruct (rstrip s) as [|b u].
  - destruct (is_space a); simpl; [tauto|]. split; discriminate.
  - split; [discriminate|]. intros [_ Hs]%andb_prop. apply IH in Hs. discriminate.
Qed.








(** *** The cap on the number of records *)

Lemma len_logging lv m st : len (logging lv m st) = len st.
Proof. reflexivity. Qed.

(** Below the cap, a container leaves the count below the cap, or brings it
    to the cap and makes the function return. *)
Lemma process_block_cap tag max_tweets st b :
  len st < max_tweets ->
  let r := process_block tag max_tweets st b in
  (r.2 = true -> len r.1 = max_tweets) /\ (r.2 = false -> len r.1 < max_tweets).
Proof.
  intros Hlt. unfold process_block.
  destruct (extract b) as [[x|]|e]; simpl; [|done|done].
  destruct (decide _); simpl; [done|].
  set (st1 := {| tweets_data := tweets_data st ++ [make_tweet tag x];
                 seen_hashes := _; log := log st |}).
  assert (Hlen : len st1 = len st + 1).
  { unfold len, st1. simpl. rewrite length_app. simpl. lia. }
  destruct (len st1 mod 100 =? 0); rewrite ?len_logging;
    destruct (Z.geb_spec (len st1) max_tweets); simpl; rewrite ?len_logging;
    split; intros; try done; lia.
Qed.

Lemma for_blocks_cap tag max_tweets blocks : forall st,
  len st < max_tweets ->
  let r := for_blocks tag max_tweets blocks st in
  (r.2 = true -> len r.1 = max_tweets) /\ (r.2 = false -> len r.1 < max_tweets).
Proof.
  induction blocks as [|b blocks IH]; intros st Hlt; simpl; [done|].
  pose proof (process_block_cap tag max_tweets st b Hlt) as [Ht Hf].
  destruct (process_block tag max_tweets st b) as [st1 [|]]; simpl in *.
  - split; [auto|done].
  - apply IH. by apply Hf.
Qed.

Lemma for_scrolls_cap page tag max_tweets fuel : forall scroll_num st,
  len st < max_tweets ->
  len (for_scrolls page tag max_tweets fuel scroll_num st).1 <= max_tweets.
Proof.
  induction fuel as [|fuel IH]; intros scroll_num st Hlt; simpl; [lia|].
  destruct (page scroll_num) as [blocks|e]; simpl; [|lia].
  set (st0 := logging INFO _ st).
  pose proof (for_blocks_cap tag max_tweets blocks st0 Hlt) as [Ht Hf].
  destruct (for_blocks tag max_tweets blocks st0) as [st1 [|]]; simpl in *.
  - rewrite Ht by done. lia.
  - apply IH. by apply Hf.
Qed.

(** With a cap of at least one record, the returned list is within the
    cap. *)
Lemma collector_cap_positive page tag seen0 lg max_tweets max_scrolls out :
  1 <= max_tweets ->
  (scroll_and_collect_tweets page tag seen0 lg max_tweets max_scrolls).1.1 = Ok out ->
  Z.of_nat (List.length out) <= max_tweets.
Proof.
  intros Hmax Hout. apply returned_list in Hout. subst out.
  apply (for_scrolls_cap page tag max_tweets). unfold len. simpl. lia.
Qed.

(** The function returns from inside the loop: once a container brings the
    count to the cap, what follows it on the page is not read. *)
Lemma for_blocks_returns tag max_tweets before b after st st1 st2 :
  for_blocks tag max_tweets before st = (st1, false) ->
  process_block tag max_tweets st1 b = (st2, true) ->
  for_blocks tag max_tweets (before ++ b :: after) st = (st2, true).
Proof.
  revert st. induction before as [|a before IH]; intros st; simpl.
  - intros [= ->] ->. done.
  - destruct (process_block tag max_tweets st a) as [st' [|]]; [done|]. apply IH.
Qed.

(** A post with a text and nothing else, and a page that shows it at every
    scroll. *)
Definition plain_post : block :=
  {| inner_text := Ok "Nifty up"%string;
     time_datetime := Ok None;
     user_name := Ok None;
     like_text := Ok None;
     retweet_text := Ok None |}.

Definition plain_page : feed := fun _ => Ok [plain_post].

(** C3 on the code: with [max_tweets = 0] the call returns one record, the
    test of the cap coming only after a record is appended. *)
Theorem collector_cap_zero :
  exists t,
    (scroll_and_collect_tweets plain_page "#nifty50"%string ∅ [] 0 1).1.1 = Ok [t] /\
    ~ (Z.of_nat (List.length [t]) <= 0).
Proof.
  eexists. unfold scroll_and_collect_tweets. simpl.
  unfold process_block. simpl.
  destruct (decide _) as [Hin|_]; [by apply elem_of_empty in Hin|].
  simpl. split; [reflexivity|]. simpl. lia.
Qed.

(** *** The report of a run *)



End Collector.




(** ** The Aggregator *)

Section CompositeSignal.
Import Signals.






(** A post of a group, for examples: only its sentiment and its keyword
    score matter to the aggregation. *)
Definition example_post (s : string) (k : Z) : post :=
  {| index := 0;
     source := {| content := ""; timestamp := ""; keyword_score := k |};
     datetime := {| day := 0; nanosecond := 0 |};
     date := 0;
     sentiment := s |}.

(** 300 posts, all buy, of mean keyword score 0.5: the score is the buy
    threshold itself and the signal is neutral. *)
Lemma score_at_buy_threshold :
  let group := (repeat (example_post "buy" 1) 150 ++ repeat (example_post "buy" 0) 150)%list in
  score (F := spec_float) group = buy_threshold /\
  signal (compute_aggregated_signals (F := spec_float) group) = "neutral".
Proof. by vm_compute. Qed.

(** 250 posts, half of them buy, of mean keyword score 0: the score is the
    sell threshold itself and the signal is neutral. *)
Lemma score_at_sell_threshold :
  let group := (repeat (example_post "buy" 0) 125 ++ repeat (example_post "sell" 0) 125)%list in
  score (F := spec_float) group = sell_threshold /\
  signal (compute_aggregated_signals (F := spec_float) group) = "neutral".
Proof. by vm_compute. Qed.

(** The example of the specification: three posts, two of them buy, of
    keyword scores 2, 1 and 0. *)
Lemma three_posts :
  compute_aggregated_signals (F := spec_float)
    [example_post "buy" 2; example_post "buy" 1; example_post "neutral" 0] =
  {| tweet_volume := 3;
     buy_pct := Float.ratio 667 1000;
     sell_pct := S754_zero false;
     neutral_pct := Float.ratio 333 1000;
     avg_keyword_score := Float.of_Z 1;
     composite_score := Float.ratio 395 1000;
     signal := "neutral";
     confidence_pct := Float.ratio 395 10 |}.
Proof. by vm_compute. Qed.

End CompositeSignal.


Section Grouping.
Import Signals.
Context {F : Type} `{Arith F} `{Pandas}.
Local Open Scope list_scope.

(** The row of the grouped table made from row [r], of index [i], whose
    timestamp parsed to [dt]. *)
Definition post_of (i : nat) (r : record) (dt : Timestamp) : post :=
  {| index := i; source := r; datetime := dt; date := day dt;
     sentiment := classify_sentiment (content r) |}.

Lemma dated_posts rows : forall i datetimes p,
  p ∈ dated i rows datetimes <->
  exists k r dt, rows !! k = Some r /\ datetimes !! k = Some (Some dt) /\
                 p = post_of (i + k) r dt.
Proof.
  induction rows as [|r rows IH]; intros i datetimes p; simpl.
  - split; [by intros ?%elem_of_nil|]. by intros (k & r & dt & ? & _).
  - assert (Hrest : p ∈ dated (S i) rows (tl datetimes) <->
      exists k r' dt, (r :: rows) !! S k = Some r' /\ datetimes !! S k = Some (Some dt) /\
                      p = post_of (i + S k) r' dt).
    { rewrite IH. split; intros (k & r' & dt & Hr & Hd & ->); exists k, r', dt;
        (split; [done|]); (split; [by destruct datetimes|]); f_equal; lia. }
    destruct datetimes as [|[dt|] datetimes]; simpl in *.
    + rewrite Hrest. split; intros (k & r' & dt & Hr & Hd & Hp); [by exists (S k), r', dt|].
      destruct k; [done|]. by exists k, r', dt.
    + rewrite elem_of_cons, Hrest. split.
      * intros [->|(k & r' & dt' & Hr & Hd & Hp)].
        -- exists 0%nat, r, dt. by rewrite Nat.add_0_r.
        -- by exists (S k), r', dt'.
      * intros (k & r' & dt' & Hr & Hd & Hp). destruct k.
        -- left. injection Hr as <-. injection Hd as <-. by rewrite Hp, Nat.add_0_r.
        -- right. by exists k, r', dt'.
    + rewrite Hrest. split; intros (k & r' & dt & Hr & Hd & Hp); [by exists (S k), r', dt|].
      destruct k; [done|]. by exists k, r', dt.
Qed.

Lemma get_group_posts (df : list post) d p : p ∈ get_group df d <-> p ∈ df /\ date p = d.
Proof.
  unfold get_group. rewrite !list_elem_of_In, filter_In.
  by rewrite Z.eqb_eq.
Qed.

Lemma group_keys_dates (df : list post) d : d ∈ group_keys df <-> exists p, p ∈ df /\ date p = d.
Proof.
  unfold group_keys. rewrite merge_sort_Permutation, elem_of_remove_dups.
  rewrite list_elem_of_In, in_map_iff. setoid_rewrite list_elem_of_In.
  split; intros (p & Hp); exists p; tauto.
Qed.

Lemma aggregate_rows (df : list post) d (daily : DailySignal) :
  (d, daily) ∈ aggregate df <->
  d ∈ group_keys df /\ daily = compute_aggregated_signals (get_group df d).
Proof.
  unfold aggregate. rewrite list_elem_of_In, in_map_iff.
  setoid_rewrite <- list_elem_of_In. split.
  - by intros (d' & [= -> ->] & Hd).
  - intros [Hd ->]. by exists d.
Qed.

Lemma tweet_volume_total (group : list post) :
  tweet_volume (compute_aggregated_signals group) = total group.
Proof.
  unfold compute_aggregated_signals. destruct (Z.eqb_spec (total group) 0) as [E|E]; simpl; by rewrite ?E.
Qed.

(** Rows whose timestamp did not parse take no part in what [dated]
    keeps. *)
Lemma dated_agree rows : forall rows' i datetimes,
  List.length rows' = List.length rows ->
  (forall k dt, datetimes !! k = Some (Some dt) -> rows' !! k = rows !! k) ->
  dated i rows' datetimes = dated i rows datetimes.
Proof.
  induction rows as [|r rows IH]; intros [|r' rows'] i datetimes Hlen Hsame; simpl in *; try done.
  rewrite (IH rows' (S i) (tl datetimes)).
  - destruct datetimes as [|[dt|] datetimes]; simpl; try done.
    specialize (Hsame 0%nat dt eq_refl). simpl in Hsame. by injection Hsame as ->.
  - lia.
  - intros k dt Hk. apply (Hsame (S k) dt). by destruct datetimes.
Qed.

(** C7: [main] raises no exception on a table, whatever its timestamps; the
    rows that it groups are those whose timestamp parsed, each under the
    day of its timestamp, so a row whose timestamp did not parse is in no
    group; every row of the result is computed from the group of its date
    and counts its rows as the volume; and the content and keyword score of
    the rows whose timestamp did not parse have no effect on the result. *)
Theorem unparsed_rows_excluded (rows : list record) :
  let datetimes := to_datetime (map timestamp rows) in
  let df := dated 0 rows datetimes in
  (exists res, main (Table rows) = Ok res /\ output_file res = Some (aggregate df)) /\
  (forall p, p ∈ df <->
     exists k r dt, rows !! k = Some r /\ datetimes !! k = Some (Some dt) /\
                    p = post_of k r dt) /\
  (forall i, (forall dt, datetimes !! i <> Some (Some dt)) ->
     forall d p, p ∈ get_group df d -> index p <> i) /\
  (forall d p, p ∈ get_group df d <-> p ∈ df /\ day (datetime p) = d) /\
  (forall p, p ∈ df -> exists daily, (date p, daily) ∈ aggregate df) /\
  Forall (fun x => get_group df x.1 <> [] /\
                   x.2 = compute_aggregated_signals (get_group df x.1) /\
                   tweet_volume x.2 = Z.of_nat (List.length (get_group df x.1)))
         (aggregate df) /\
  (forall rows',
     map timestamp rows' = map timestamp rows ->
     (forall k dt, datetimes !! k = Some (Some dt) -> rows' !! k = rows !! k) ->
     main (Table rows') = main (Table rows)).
Proof.
  intros datetimes df.
  assert (Hdf : forall p, p ∈ df <->
     exists k r dt, rows !! k = Some r /\ datetimes !! k = Some (Some dt) /\
                    p = post_of k r dt).
  { intros p. unfold df. by rewrite dated_posts. }
  split; [by eexists|]. split; [done|]. split; [|split; [|split; [|split]]].
  - intros i Hi d p [Hp _]%get_group_posts Hidx.
    apply Hdf in Hp as (k & r & dt & _ & Hk & ->). simpl in Hidx. subst k.
    by apply (Hi dt).
  - intros d p. rewrite get_group_posts. split; intros [Hp Hd]; split; try done.
    + apply Hdf in Hp as (k & r & dt & _ & _ & ->). done.
    + apply Hdf in Hp as (k & r & dt & _ & _ & ->). done.
  - intros p Hp. eexists. apply aggregate_rows. split; [|done].
    apply group_keys_dates. by exists p.
  - apply Forall_forall. intros [d daily] [Hd ->]%aggregate_rows. simpl.
    split; [|split; [done|apply tweet_volume_total]].
    apply group_keys_dates in Hd as (p & Hp & Hd).
    intros E. assert (Hin : p ∈ get_group df d) by by apply get_group_posts.
    rewrite E in Hin. by apply elem_of_nil in Hin.
  - intros rows' Hts Hsame. unfold main. rewrite Hts. fold datetimes.
    assert (Hlen : List.length rows' = List.length rows).
    { by rewrite <- (length_map timestamp rows'), Hts, length_map. }
    by rewrite (dated_agree rows rows' 0 datetimes Hlen Hsame), Hlen.
Qed.

End Grouping.

(** A table of three rows, the second without a date, and the same table
    with another content and keyword score in that row. *)
Definition three_rows : list Signals.record :=
  [ {| Signals.content := "Nifty breakout, target 20000, go long";
       Signals.timestamp := "2025-08-01T10:00:00.000Z";
       Signals.keyword_score := 3 |};
    {| Signals.content := "promoted";
       Signals.timestamp := "N/A";
       Signals.keyword_score := 0 |};
    {| Signals.content := "bearish, short it";
       Signals.timestamp := "2025-08-02T09:30:00.000Z";
       Signals.keyword_score := -2 |} ].

Definition three_rows' : list Signals.record :=
  [ {| Signals.content := "Nifty breakout, target 20000, go long";
       Signals.timestamp := "2025-08-01T10:00:00.000Z";
       Signals.keyword_score := 3 |};
    {| Signals.content := "buy buy buy";
       Signals.timestamp := "N/A";
       Signals.keyword_score := 100 |};
    {| Signals.content := "bearish, short it";
       Signals.timestamp := "2025-08-02T09:30:00.000Z";
       Signals.keyword_score := -2 |} ].

(** The result has one row per day, of one post each. *)
Lemma main_three_rows :
  match @Signals.main spec_float binary64 Examples.iso_to_datetime (Signals.Table three_rows) with
  | Ok res =>
      (fun x => (x.1, Signals.tweet_volume x.2, Signals.signal x.2))
        <$> default [] (Signals.output_file res)
      = [(739464, 1, "buy"); (739465, 1, "sell")]
  | Raise _ => False
  end.
Proof. by vm_compute. Qed.

Lemma unparsed_rows_excluded_witness :
  @Signals.main spec_float binary64 Examples.iso_to_datetime (Signals.Table three_rows')
  = @Signals.main spec_float binary64 Examples.iso_to_datetime (Signals.Table three_rows).
Proof.
  pose proof (@unparsed_rows_excluded spec_float binary64 Examples.iso_to_datetime three_rows)
    as Hx.
  cbv zeta in Hx. destruct Hx as (_ & _ & _ & _ & _ & _ & Hsame).
  apply Hsame; [reflexivity|].
  intros [|[|[|k]]] dt; vm_compute; intros E; solve [reflexivity | discriminate E].
Defined.

Section Percentages.
Import Signals.
Context `{Pandas}.
Local Open Scope list_scope.











(** The percentages of the three posts of the example, as the program
    computes them in binary64: 0.667, 0 and 0.333. *)
Lemma three_posts_percentages :
  let daily := compute_aggregated_signals (F := spec_float)
                 [example_post "buy" 2; example_post "buy" 1; example_post "neutral" 0] in
  buy_pct daily = Float.ratio 667 1000 /\
  sell_pct daily = S754_zero false /\
  neutral_pct daily = Float.ratio 333 1000.
Proof. by vm_compute. Qed.

End Percentages.


(** ** The rounding error of binary64 *)

Section Binary64.
Local Open Scope Z_scope.

Local Abbreviation fexp := (SpecFloat.fexp Float.prec Float.emax).
Local Abbreviation round_aux := (binary_round_aux Float.prec Float.emax).

Lemma fexp_eq k : fexp k = Z.max (k - 53) (-1074).
Proof. reflexivity. Qed.

Lemma digits2_size p : digits2_pos p = Pos.size p.
Proof. induction p as [p IH|p IH|]; simpl; by rewrite ?IH. Qed.

(** A positive number of [d] binary digits is between [2^(d-1)] and [2^d]. *)
Lemma digits2_bounds p :
  2 ^ (Z.pos (digits2_pos p) - 1) <= Z.pos p < 2 ^ Z.pos (digits2_pos p).
Proof.
  induction p as [p IH|p IH|]; simpl digits2_pos; [| |by vm_compute].
  - rewrite Pos2Z.inj_succ. replace (Z.succ (Z.pos (digits2_pos p)) - 1) with
      (Z.succ (Z.pos (digits2_pos p) - 1)) by lia.
    rewrite !Z.pow_succ_r by lia. lia.
  - rewrite Pos2Z.inj_succ. replace (Z.succ (Z.pos (digits2_pos p)) - 1) with
      (Z.succ (Z.pos (digits2_pos p) - 1)) by lia.
    rewrite !Z.pow_succ_r by lia. lia.
Qed.

Lemma shr_1_m r : 0 <= shr_m r -> shr_m (shr_1 r) = shr_m r / 2.
Proof.
  destruct r as [m rb sb]. cbn [shr_m]. intros Hm.
  destruct m as [|[p|p|]|p]; cbn [shr_1 shr_m]; try done.
  - apply (Z.div_unique _ _ _ 1); lia.
  - apply (Z.div_unique _ _ _ 0); lia.
Qed.

Lemma shr_iter_m p : forall r,
  0 <= shr_m r -> shr_m (SpecFloat.iter_pos shr_1 p r) = shr_m r / 2 ^ Z.pos p.
Proof.
  induction p as [p IH|p IH|]; intros r Hr; simpl SpecFloat.iter_pos.
  - assert (H1 : 0 <= shr_m (shr_1 r)) by (rewrite shr_1_m by done; apply Z.div_pos; lia).
    assert (H2 : 0 <= shr_m (SpecFloat.iter_pos shr_1 p (shr_1 r))).
    { rewrite IH by done. apply Z.div_pos; [done|]. apply Z.pow_pos_nonneg; lia. }
    rewrite IH, IH, shr_1_m by done.
    rewrite !Z.div_div by (try apply Z.pow_pos_nonneg; lia). f_equal.
    assert (E : 2 ^ Z.pos p~1 = 2 * (2 ^ Z.pos p * 2 ^ Z.pos p)).
    { rewrite <- Z.pow_add_r, <- Z.pow_succ_r by lia. f_equal. lia. }
    rewrite E. lia.
  - assert (H2 : 0 <= shr_m (SpecFloat.iter_pos shr_1 p r)).
    { rewrite IH by done. apply Z.div_pos; [done|]. apply Z.pow_pos_nonneg; lia. }
    rewrite IH, IH by done.
    rewrite Z.div_div by (try apply Z.pow_pos_nonneg; lia). f_equal.
    rewrite <- Z.pow_add_r by lia. f_equal. lia.
  - by rewrite shr_1_m.
Qed.

Lemma shr_record_m m l : shr_m (shr_record_of_loc m l) = m.
Proof. by destruct l as [|[]]. Qed.

(** [shr_fexp] divides the mantissa by a power of two, the one that brings
    the exponent up to [fexp]. *)
Lemma shr_fexp_m m e l :
  0 <= m ->
  let n := Z.max 0 (fexp (Zdigits2 m + e) - e) in
  shr_m (shr_fexp Float.prec Float.emax m e l).1 = m / 2 ^ n /\
  (shr_fexp Float.prec Float.emax m e l).2 = e + n.
Proof.
  intros Hm n. unfold shr_fexp, shr. subst n.
  destruct (fexp (Zdigits2 m + e) - e) as [|p|p] eqn:E; simpl.
  - rewrite shr_record_m. split; [by rewrite Z.div_1_r|lia].
  - rewrite shr_iter_m by (by rewrite shr_record_m). rewrite shr_record_m.
    split; [done|lia].
  - rewrite shr_record_m. split; [by rewrite Z.div_1_r|lia].
Qed.

Lemma round_nearest_even_near m l :
  m <= round_nearest_even m l <= m + 1.
Proof. destruct l as [|[]]; simpl; try lia. destruct (Z.even m); lia. Qed.


(** The float of mantissa [m >= 0] and exponent [e]. *)
Definition nonneg_float (m e : Z) : spec_float :=
  match m with
  | Z0 => S754_zero false
  | Zpos p => S754_finite false p e
  | Zneg _ => S754_nan
  end.

Lemma shr_fexp_noshift m e l :
  fexp (Zdigits2 m + e) - e <= 0 ->
  shr_fexp Float.prec Float.emax m e l = (shr_record_of_loc m l, e).
Proof.
  intros Hn. unfold shr_fexp, shr.
  destruct (fexp (Zdigits2 m + e) - e) as [|p|p]; done.
Qed.

Lemma Zdigits2_nonneg m : 0 <= Zdigits2 m.
Proof. destruct m; simpl; lia. Qed.

Lemma Zdigits2_upper m : 0 <= m -> m < 2 ^ Zdigits2 m.
Proof.
  destruct m as [|p|p]; simpl; [lia| |lia]. intros _. apply digits2_bounds.
Qed.

Lemma Zdigits2_le m k : 0 <= m -> 0 <= k -> m <= 2 ^ k -> Zdigits2 m <= k + 1.
Proof.
  destruct m as [|p|p]; simpl; [lia| |lia]. intros _ Hk Hm.
  pose proof (digits2_bounds p) as [Hlo _].
  destruct (Z.le_gt_cases (Z.pos (digits2_pos p)) (k + 1)) as [|Hgt]; [done|].
  assert (2 ^ (k + 1) <= 2 ^ (Z.pos (digits2_pos p) - 1)) by (apply Z.pow_le_mono_r; lia).
  rewrite Z.pow_add_r in H by lia. lia.
Qed.

(** What [binary_round_aux] returns for a mantissa [m >= 0] and an exponent
    [e]: with [E] the exponent after the first shift and [m1] the mantissa
    after it, a float of exponent [E] or [E + 1] whose value is at most one
    unit of [2^E] from [m1]; and the number [m * 2^e] itself when it comes
    with the exact location and needs no shift. *)
Lemma round_aux_Z m e l :
  0 <= m ->
  let n := Z.max 0 (fexp (Zdigits2 m + e) - e) in
  e + n + 1 <= 971 ->
  exists mv ev,
    round_aux false m e l = nonneg_float mv ev /\
    0 <= mv /\ e + n <= ev <= e + n + 1 /\
    m / 2 ^ n - 1 <= mv * 2 ^ (ev - (e + n)) <= m / 2 ^ n + 1 /\
    (l = loc_Exact -> n = 0 -> mv = m /\ ev = e).
Proof.
  intros Hm n Hmax.
  assert (HE : -1074 <= e + n /\ 0 <= n /\ Zdigits2 m - 53 <= n).
  { unfold n. rewrite fexp_eq. lia. }
  set (m1 := m / 2 ^ n).
  assert (Hm1 : 0 <= m1 < 2 ^ 53).
  { unfold m1. split; [apply Z.div_pos; [done|apply Z.pow_pos_nonneg; lia]|].
    apply Z.div_lt_upper_bound; [apply Z.pow_pos_nonneg; lia|].
    rewrite <- Z.pow_add_r by lia.
    pose proof (Zdigits2_upper m Hm). pose proof (Zdigits2_nonneg m).
    assert (2 ^ Zdigits2 m <= 2 ^ (n + 53)) by (apply Z.pow_le_mono_r; lia). lia. }
  unfold binary_round_aux.
  pose proof (shr_fexp_m m e l Hm) as [Hs1 He1]. cbv zeta in Hs1, He1.
  pose proof (shr_fexp_noshift m e l) as Hns.
  destruct (shr_fexp Float.prec Float.emax m e l) as [mrs' e'] eqn:E1.
  cbn [fst snd] in Hs1, He1. fold n in Hs1, He1. fold m1 in Hs1. subst e'.
  set (m2 := round_nearest_even (shr_m mrs') (loc_of_shr_record mrs')).
  assert (Hm2 : m1 <= m2 <= m1 + 1).
  { unfold m2. rewrite <- Hs1. apply round_nearest_even_near. }
  assert (Hm2' : 0 <= m2) by lia.
  pose proof (shr_fexp_m m2 (e + n) loc_Exact Hm2') as [Hs2 He2]. cbv zeta in Hs2, He2.
  pose proof (shr_fexp_noshift m2 (e + n) loc_Exact) as Hns2.
  destruct (shr_fexp Float.prec Float.emax m2 (e + n) loc_Exact) as [mrs'' e''] eqn:E2.
  cbn [fst snd] in Hs2, He2.
  set (n2 := Z.max 0 (fexp (Zdigits2 m2 + (e + n)) - (e + n))) in *.
  assert (Hn2 : 0 <= n2 <= 1).
  { unfold n2. rewrite fexp_eq.
    pose proof (Zdigits2_le m2 53 Hm2' ltac:(lia) ltac:(lia)). lia. }
  exists (m2 / 2 ^ n2), e''. rewrite Hs2.
  assert (Hdiv : m2 - 1 <= m2 / 2 ^ n2 * 2 ^ n2 <= m2 /\ 0 <= m2 / 2 ^ n2).
  { destruct (Z.eq_dec n2 0) as [->|]; [rewrite Z.pow_0_r, Z.div_1_r; lia|].
    replace n2 with 1 by lia. change (2 ^ 1) with 2.
    pose proof (Z.div_mod m2 2 ltac:(lia)). pose proof (Z.mod_pos_bound m2 2 ltac:(lia)).
    split; [lia|]. apply Z.div_pos; lia. }
  split; [|split; [lia|split; [lia|split]]].
  - destruct (m2 / 2 ^ n2) as [|p|p] eqn:Ep; simpl; [done| |lia].
    destruct (Z.leb_spec e'' (Float.emax - Float.prec)) as [|Hov]; [done|].
    change (Float.emax - Float.prec) with 971 in Hov. lia.
  - replace (e'' - (e + n)) with n2 by lia. lia.
  - intros -> Hn0.
    assert (Hn1 : fexp (Zdigits2 m + e) - e <= 0) by (unfold n in Hn0; lia).
    specialize (Hns Hn1). injection Hns as Hr _.
    assert (Em2 : m2 = m) by (unfold m2; rewrite Hr; done).
    assert (n2 = 0).
    { unfold n2. rewrite Em2, Hn0, Z.add_0_r. lia. }
    rewrite H, Z.pow_0_r, Z.div_1_r. lia.
Qed.


(** *** Values *)

Definition pow2 (e : Z) : Q := (2 ^ e)%Q.

(** The number that a float denotes; 0 for what is not a number. *)
Definition F2Q (x : spec_float) : Q :=
  match x with
  | S754_finite s m e =>
      ((if s then - (1) else 1) * inject_Z (Z.pos m) * pow2 e)%Q
  | _ => 0%Q
  end.

Lemma pow2_pos e : (0 < pow2 e)%Q.
Proof. by apply Qpower_0_lt. Qed.

Lemma pow2_add a b : (pow2 (a + b) == pow2 a * pow2 b)%Q.
Proof. apply Qpower_plus. done. Qed.

Lemma pow2_le a b : a <= b -> (pow2 a <= pow2 b)%Q.
Proof. intros. by apply Qpower_le_compat_l. Qed.

Lemma pow2_lt_inv a b : (pow2 a < pow2 b)%Q -> a < b.
Proof. intros. by eapply Qpower_lt_compat_l_inv. Qed.

Lemma pow2_Z n : 0 <= n -> (pow2 n == inject_Z (2 ^ n))%Q.
Proof. intros. unfold pow2. by rewrite Zpower_Qpower. Qed.

Lemma pow2_succ a : (pow2 (a + 1) == 2 * pow2 a)%Q.
Proof. rewrite pow2_add. change (pow2 1) with 2%Q. ring. Qed.

Lemma F2Q_nonneg_float m e :
  0 <= m -> (F2Q (nonneg_float m e) == inject_Z m * pow2 e)%Q.
Proof. destruct m as [|p|p]; simpl; intros; [ring|ring|lia]. Qed.

Lemma fexp_mono a b : a <= b -> fexp a <= fexp b.
Proof. rewrite !fexp_eq. lia. Qed.

(** A mantissa times a power of two below [2^k] has at most [k] digits
    above the exponent. *)
Lemma digits_below m e k (x : Q) :
  0 < m -> (inject_Z m * pow2 e <= x)%Q -> (x < pow2 k)%Q -> Zdigits2 m + e <= k.
Proof.
  intros Hm Hx Hk. destruct m as [|p|p]; try lia. simpl.
  pose proof (digits2_bounds p) as [Hlo _].
  assert (H1 : (pow2 (Z.pos (digits2_pos p) - 1 + e) < pow2 k)%Q).
  { eapply Qle_lt_trans; [|exact Hk]. eapply Qle_trans; [|exact Hx].
    rewrite pow2_add. apply Qmult_le_compat_r; [|apply Qlt_le_weak, pow2_pos].
    rewrite pow2_Z by lia. by rewrite <- Zle_Qle. }
  apply pow2_lt_inv in H1. lia.
Qed.

(** The error of [binary_round_aux] on a number [x] below [2^k] that the
    mantissa [m] and the exponent [e] bracket: at most [2^(fexp k + 1)],
    twice the unit in the last place. *)
Lemma round_aux_error m e l (x : Q) k :
  0 <= m -> k <= 900 ->
  (inject_Z m * pow2 e <= x)%Q -> (x < inject_Z (m + 1) * pow2 e)%Q -> (x < pow2 k)%Q ->
  e <= fexp k \/ (l = loc_Exact /\ 0 < m /\ (x == inject_Z m * pow2 e)%Q) ->
  exists mv ev,
    round_aux false m e l = nonneg_float mv ev /\ 0 <= mv /\
    (Qabs (inject_Z mv * pow2 ev - x) <= pow2 (fexp k + 1))%Q.
Proof.
  intros Hm Hk Hlo Hhi Hxk Hcase.
  set (n := Z.max 0 (fexp (Zdigits2 m + e) - e)).
  assert (Hn : 0 <= n) by (unfold n; lia).
  assert (HE : (l = loc_Exact /\ n = 0 /\ 0 < m /\ (x == inject_Z m * pow2 e)%Q)
               \/ e + n <= fexp k).
  { destruct (Z.eq_dec m 0) as [->|Hm0].
    - destruct Hcase as [He|(_ & ? & _)]; [|lia]. right.
      unfold n. simpl Zdigits2. rewrite !fexp_eq in *. lia.
    - assert (Hd : Zdigits2 m + e <= k) by (eapply digits_below; eauto; lia).
      apply fexp_mono in Hd.
      destruct Hcase as [He|(-> & Hpos & Hx)]; [right; unfold n; lia|].
      destruct (Z.eq_dec n 0) as [Hn0|Hn0]; [by left|]. right. unfold n in *. lia. }
  assert (Hfk : fexp k <= 847) by (rewrite fexp_eq; lia).
  assert (Hmax : e + n + 1 <= 971).
  { destruct HE as [(_ & Hn0 & Hpos & Hx)|]; [|lia].
    assert (Zdigits2 m + e <= k) by (eapply digits_below; eauto).
    pose proof (Zdigits2_nonneg m). destruct m; simpl in *; lia. }
  destruct (round_aux_Z m e l Hm Hmax) as (mv & ev & Hr & Hmv & Hev & Hbr & Hex).
  fold n in Hev, Hbr, Hex.
  exists mv, ev. split; [done|]. split; [done|].
  destruct HE as [(Hl & Hn0 & Hpos & Hx)|HE].
  - destruct (Hex Hl Hn0) as [-> ->].
    pose proof (pow2_pos (fexp k + 1)).
    apply Qabs_Qle_condition. split; lra.
  - set (m1 := m / 2 ^ n) in *.
    assert (H2n : 0 < 2 ^ n) by (apply Z.pow_pos_nonneg; lia).
    assert (Hm1 : m1 * 2 ^ n <= m /\ m + 1 <= (m1 + 1) * 2 ^ n).
    { unfold m1. pose proof (Z.div_mod m (2 ^ n) ltac:(lia)).
      pose proof (Z.mod_pos_bound m (2 ^ n) H2n). nia. }
    assert (Hpe : (pow2 (e + n) == inject_Z (2 ^ n) * pow2 e)%Q).
    { rewrite Z.add_comm, pow2_add, pow2_Z by lia. reflexivity. }
    assert (Hpv : (pow2 ev == inject_Z (2 ^ (ev - (e + n))) * pow2 (e + n))%Q).
    { rewrite <- pow2_Z, <- pow2_add by lia. by replace (ev - (e + n) + (e + n)) with ev by lia. }
    assert (Hx1 : (inject_Z m1 * pow2 (e + n) <= x)%Q).
    { eapply Qle_trans; [|exact Hlo]. rewrite Hpe, Qmult_assoc, <- inject_Z_mult.
      apply Qmult_le_compat_r; [|apply Qlt_le_weak, pow2_pos]. rewrite <- Zle_Qle. lia. }
    assert (Hx2 : (x <= inject_Z (m1 + 1) * pow2 (e + n))%Q).
    { eapply Qle_trans; [apply Qlt_le_weak, Hhi|]. rewrite Hpe, Qmult_assoc, <- inject_Z_mult.
      apply Qmult_le_compat_r; [|apply Qlt_le_weak, pow2_pos]. rewrite <- Zle_Qle. lia. }
    assert (Hv1 : (inject_Z (m1 - 1) * pow2 (e + n) <= inject_Z mv * pow2 ev)%Q).
    { rewrite Hpv, Qmult_assoc, <- inject_Z_mult.
      apply Qmult_le_compat_r; [|apply Qlt_le_weak, pow2_pos]. rewrite <- Zle_Qle. lia. }
    assert (Hv2 : (inject_Z mv * pow2 ev <= inject_Z (m1 + 1) * pow2 (e + n))%Q).
    { rewrite Hpv, Qmult_assoc, <- inject_Z_mult.
      apply Qmult_le_compat_r; [|apply Qlt_le_weak, pow2_pos]. rewrite <- Zle_Qle. lia. }
    assert (Hp : (pow2 (e + n + 1) <= pow2 (fexp k + 1))%Q) by (apply pow2_le; lia).
    rewrite pow2_succ in Hp.
    rewrite !inject_Z_plus, ?inject_Z_opp in *.
    unfold Z.sub in Hv1. rewrite inject_Z_plus, inject_Z_opp in Hv1.
    change (inject_Z 1) with 1%Q in *.
    pose proof (pow2_pos (e + n)).
    apply Qabs_Qle_condition. split; lra.
Qed.

End Binary64.

(** * Further properties of the Collector *)

Section Entities.
Import PyStr Scrapper.







End Entities.


Section Hashing.
Context `{Hashlib}.
Import PyStr Scrapper.

Lemma all_space_app s t : all_space (s ++ t) = all_space s && all_space t.
Proof.
  induction s as [|a s IH]; [done|]. rewrite app_cons. simpl.
  by rewrite IH, andb_assoc.
Qed.

Lemma lstrip_spaces ws s : all_space ws = true -> lstrip (ws ++ s) = lstrip s.
Proof.
  induction ws as [|a ws IH]; [done|]. rewrite app_cons. simpl.
  intros [-> Hws]%andb_prop. by apply IH.
Qed.

Lemma rstrip_spaces s ws : all_space ws = true -> rstrip (s ++ ws) = rstrip s.
Proof.
  intros Hws. induction s as [|a s IH].
  - rewrite app_nil. by apply rstrip_empty.
  - rewrite app_cons. simpl. by rewrite IH.
Qed.

Lemma lstrip_app s t : all_space s = false -> lstrip (s ++ t) = lstrip s ++ t.
Proof.
  induction s as [|a s IH]; [done|]. rewrite app_cons. simpl.
  destruct (is_space a); [exact IH|done].
Qed.

(** Spaces around a text do not change what [strip] leaves of it. *)
Lemma strip_spaces ws s ws' :
  all_space ws = true -> all_space ws' = true -> strip (ws ++ s ++ ws') = strip s.
Proof.
  intros Hws Hws'. unfold strip. rewrite lstrip_spaces by done.
  destruct (all_space s) eqn:Hs.
  - assert (Hl : lstrip (s ++ ws') = "").
    { apply lstrip_empty. by rewrite all_space_app, Hs. }
    apply lstrip_empty in Hs. by rewrite Hl, Hs.
  - rewrite lstrip_app by done. by apply rstrip_spaces.
Qed.

(** X2: the hash of a post does not depend on the spaces in front of and
    behind its text; so a container that shows the text of a post already
    seen, with other spaces around it, is dropped by the loop as a
    duplicate. *)
Theorem hash_ignores_outer_spaces :
  (forall username timestamp content ws ws',
     all_space ws = true -> all_space ws' = true ->
     get_tweet_hash username timestamp (ws ++ content ++ ws')
     = get_tweet_hash username timestamp content) /\
  (forall tag max_tweets st b x x' ws ws',
     all_space ws = true -> all_space ws' = true ->
     extract b = Ok (Some x') ->
     x_username x' = x_username x -> x_timestamp x' = x_timestamp x ->
     x_content x' = ws ++ x_content x ++ ws' ->
     tweet_hash x ∈ seen_hashes st ->
     process_block tag max_tweets st b = (st, false)).
Proof.
  assert (Hhash : forall username timestamp content ws ws',
     all_space ws = true -> all_space ws' = true ->
     get_tweet_hash username timestamp (ws ++ content ++ ws')
     = get_tweet_hash username timestamp content).
  { intros. unfold get_tweet_hash. by rewrite strip_spaces. }
  split; [exact Hhash|].
  intros tag max_tweets st b x x' ws ws' Hws Hws' Hb Hu Ht Hc Hseen.
  unfold process_block. rewrite Hb.
  assert (E : tweet_hash x' = tweet_hash x).
  { unfold tweet_hash. by rewrite Hu, Ht, Hc, Hhash. }
  rewrite E. by destruct (decide _).
Qed.

Lemma app_length_str (s t : string) :
  String.length (s ++ t) = (String.length s + String.length t)%nat.
Proof. induction s as [|a s IH]; [done|]. rewrite app_cons. simpl. by rewrite IH. Qed.

(** X3: the text that is hashed joins author, timestamp and body with a
    bar and writes a missing timestamp as None, so posts that differ in
    author and timestamp have one hash, under every digest, when a bar moves
    from the author to the timestamp, or when the timestamp of one is
    missing and that of the other is the text None. *)
Theorem hash_joins_fields :
  (forall u v t content,
     get_tweet_hash (u ++ "|" ++ v) (Some t) content
     = get_tweet_hash u (Some (v ++ "|" ++ t)) content /\
     u ++ "|" ++ v <> u) /\
  (forall u content,
     get_tweet_hash u None content = get_tweet_hash u (Some "None") content).
Proof.
  split; [|done]. intros u v t content. split.
  - unfold get_tweet_hash. simpl fmt. f_equal.
    by rewrite <- !app_assoc_str.
  - intros E. apply (f_equal String.length) in E.
    rewrite !app_length_str in E. simpl in E. lia.
Qed.

End Hashing.

Lemma hash_ignores_outer_spaces_witness :
  Scrapper.get_tweet_hash (H := Examples.identity_digest) "bob" (Some "t")
    (" " ++ "Bank nifty falls" ++ "  ")
  = Scrapper.get_tweet_hash (H := Examples.identity_digest) "bob" (Some "t")
      "Bank nifty falls".
Proof.
  apply (proj1 (hash_ignores_outer_spaces (H := Examples.identity_digest))); reflexivity.
Defined.

Section Records.
Context `{Hashlib}.
Import PyStr Scrapper.
Local Open Scope list_scope.

(** A replacement that does not hold the replaced character leaves none of
    it. *)
Lemma occurs_replace c r s : occurs c r = false -> occurs c (replace c r s) = false.
Proof.
  intros Hr. induction s as [|a s IH]; [done|]. simpl.
  destruct (Ascii.eqb_spec a c) as [->|Hne].
  - by rewrite occurs_app, Hr.
  - rewrite occurs_cons, IH. by destruct (Ascii.eqb_spec a c).
Qed.

(** X4: the address that a hashtag is searched at holds no #, which would
    start a fragment and cut the query; a tag without # is passed as it
    is. *)
Theorem search_url_fragment_free (tag : string) :
  occurs "#" (search_url tag) = false /\
  (occurs "#" tag = false ->
   search_url tag = ("https://twitter.com/search?q=" ++ tag ++ "&src=typed_query&f=live")%string).
Proof.
  unfold search_url. split.
  - rewrite !occurs_app, occurs_replace by reflexivity. reflexivity.
  - intros Ht. by rewrite replace_absent.
Qed.




End Records.

Section Budget.
Context `{Hashlib}.
Import PyStr Scrapper.
Local Open Scope list_scope.

Lemma for_scrolls_local page page' tag max_tweets fuel : forall scroll_num st,
  (forall n, scroll_num <= n < scroll_num + Z.of_nat fuel -> page n = page' n) ->
  for_scrolls page tag max_tweets fuel scroll_num st
  = for_scrolls page' tag max_tweets fuel scroll_num st.
Proof.
  induction fuel as [|fuel IH]; intros scroll_num st Hsame; simpl; [done|].
  rewrite <- (Hsame scroll_num) by lia.
  destruct (page scroll_num) as [blocks|e]; [|done].
  destruct (for_blocks _ _ _ _) as [st1 [|]]; [done|].
  apply IH. intros n Hn. apply Hsame. lia.
Qed.

(** The scrolls of a call are counted by the records that the loop writes
    to the log at each scroll. *)
Definition is_scroll (r : level * message) : bool :=
  match r with
  | (_, MsgScroll _ _ _) => true
  | _ => false
  end.

Definition scrolls_logged (lg : list (level * message)) : nat :=
  List.length (List.filter is_scroll lg).

Lemma scrolls_logged_app l1 l2 :
  scrolls_logged (l1 ++ l2) = (scrolls_logged l1 + scrolls_logged l2)%nat.
Proof. unfold scrolls_logged. by rewrite List.filter_app, length_app. Qed.

Lemma scrolls_logged_logging lv m st :
  is_scroll (lv, m) = false ->
  scrolls_logged (log (logging lv m st)) = scrolls_logged (log st).
Proof.
  intros Hm. unfold logging. cbn [log]. rewrite scrolls_logged_app.
  unfold scrolls_logged at 2. cbn [List.filter]. rewrite Hm. simpl. lia.
Qed.

Lemma process_block_scrolls tag max_tweets st b :
  scrolls_logged (log (process_block tag max_tweets st b).1) = scrolls_logged (log st).
Proof.
  unfold process_block. destruct (extract b) as [[x|]|e]; cbn [fst].
  - destruct (decide _); [done|].
    repeat match goal with |- context [if ?c then _ else _] => destruct c end;
      cbn [fst]; rewrite ?scrolls_logged_logging by done; done.
  - done.
  - by rewrite scrolls_logged_logging.
Qed.

Lemma for_blocks_scrolls tag max_tweets blocks : forall st,
  scrolls_logged (log (for_blocks tag max_tweets blocks st).1) = scrolls_logged (log st).
Proof.
  induction blocks as [|b blocks IH]; intros st; simpl; [done|].
  pose proof (process_block_scrolls tag max_tweets st b) as Hb.
  destruct (process_block tag max_tweets st b) as [st1 [|]]; [done|].
  by rewrite IH.
Qed.

Lemma for_scrolls_scrolls page tag max_tweets fuel : forall scroll_num st,
  (scrolls_logged (log (for_scrolls page tag max_tweets fuel scroll_num st).1)
   <= scrolls_logged (log st) + fuel)%nat.
Proof.
  induction fuel as [|fuel IH]; intros scroll_num st; simpl; [lia|].
  destruct (page scroll_num) as [blocks|e]; simpl; [|lia].
  set (st0 := logging INFO _ st).
  assert (H0 : scrolls_logged (log st0) = S (scrolls_logged (log st))).
  { unfold st0, logging. cbn [log]. rewrite scrolls_logged_app.
    unfold scrolls_logged at 2. simpl. lia. }
  pose proof (for_blocks_scrolls tag max_tweets blocks st0) as Hb.
  destruct (for_blocks tag max_tweets blocks st0) as [st1 [|]]; simpl in *; [lia|].
  specialize (IH (scroll_num + 1) st1). lia.
Qed.

(** X6: a call of [scroll_and_collect_tweets] scrolls at most [max_scrolls]
    times, however long the feed is: it adds at most [max_scrolls] scroll
    records to the log, and two pages that show the same containers during
    the first [max_scrolls] scrolls give the same result. With
    [max_scrolls <= 0] it returns the empty list and leaves the set and the
    log as they are. *)
Theorem scroll_budget page tag seen0 lg max_tweets max_scrolls :
  (scrolls_logged (scroll_and_collect_tweets page tag seen0 lg max_tweets max_scrolls).2
   <= scrolls_logged lg + Z.to_nat max_scrolls)%nat /\
  (forall page',
     (forall n, 0 <= n < max_scrolls -> page n = page' n) ->
     scroll_and_collect_tweets page tag seen0 lg max_tweets max_scrolls
     = scroll_and_collect_tweets page' tag seen0 lg max_tweets max_scrolls) /\
  (max_scrolls <= 0 ->
   scroll_and_collect_tweets page tag seen0 lg max_tweets max_scrolls = (Ok [], seen0, lg)).
Proof.
  split; [|split].
  - unfold scroll_and_collect_tweets.
    pose proof (for_scrolls_scrolls page tag max_tweets (Z.to_nat max_scrolls) 0
                  {| tweets_data := []; seen_hashes := seen0; log := lg |}) as Hs.
    by destruct (for_scrolls _ _ _ _ _ _) as [st [e|]].
  - intros page' Hsame. unfold scroll_and_collect_tweets.
    rewrite (for_scrolls_local page page'); [done|].
    intros n Hn. apply Hsame. lia.
  - intros Hle. unfold scroll_and_collect_tweets.
    replace (Z.to_nat max_scrolls) with 0%nat by lia. done.
Qed.

End Budget.

Lemma scroll_budget_witness :
  Scrapper.scroll_and_collect_tweets (H := Examples.identity_digest)
    Examples.page "#nifty50" ∅ [] 2000 0 = (Ok [], ∅, []).
Proof.
  apply (proj2 (proj2 (scroll_budget (H := Examples.identity_digest)
                         Examples.page "#nifty50" ∅ [] 2000 0))).
  reflexivity.
Defined.

Section Containers.
Context `{Hashlib}.
Import PyStr Scrapper.
Local Open Scope list_scope.

(** Two states of the loop with the same list and the same set; the logs
    may differ. *)
Definition same_data (st st' : loop_state) : Prop :=
  tweets_data st = tweets_data st' /\ seen_hashes st = seen_hashes st'.

Lemma same_data_logging lv m st : same_data (logging lv m st) st.
Proof. done. Qed.

Lemma same_data_trans st1 st2 st3 : same_data st1 st2 -> same_data st2 st3 -> same_data st1 st3.
Proof. intros [H1 H2] [H3 H4]. split; congruence. Qed.

Lemma same_data_sym st1 st2 : same_data st1 st2 -> same_data st2 st1.
Proof. intros [H1 H2]. split; congruence. Qed.

(** What a container does to the list and to the set depends on the list
    and on the set only. *)
Lemma process_block_same tag max_tweets st st' b :
  same_data st st' ->
  same_data (process_block tag max_tweets st b).1 (process_block tag max_tweets st' b).1 /\
  (process_block tag max_tweets st b).2 = (process_block tag max_tweets st' b).2.
Proof.
  intros [Hd Hs]. unfold process_block.
  destruct (extract b) as [[x|]|e]; cbn [fst snd]; [|done|done].
  rewrite Hs. destruct (decide _); [done|].
  unfold len, logging. cbn [tweets_data seen_hashes log]. rewrite Hd.
  destruct (_ =? 0); cbn [tweets_data seen_hashes log];
    destruct (_ >=? max_tweets); cbn [fst snd]; split; try done;
    split; cbn; by rewrite ?Hd, ?Hs.
Qed.

(** A container that yields no candidate changes neither the list nor the
    set, and the loop goes on after it. *)
Lemma process_block_no_candidate tag max_tweets st b :
  candidate b = None ->
  same_data (process_block tag max_tweets st b).1 st /\
  (process_block tag max_tweets st b).2 = false.
Proof.
  unfold candidate, process_block. by destruct (extract b) as [[x|]|e].
Qed.

Definition yields (b : block) : bool :=
  match candidate b with
  | Some _ => true
  | None => false
  end.

Lemma for_blocks_same tag max_tweets blocks : forall st st',
  same_data st st' ->
  same_data (for_blocks tag max_tweets blocks st).1
            (for_blocks tag max_tweets (List.filter yields blocks) st').1 /\
  (for_blocks tag max_tweets blocks st).2
  = (for_blocks tag max_tweets (List.filter yields blocks) st').2.
Proof.
  induction blocks as [|b blocks IH]; intros st st' Hsame; [done|].
  cbn [for_blocks List.filter].
  destruct (candidate b) as [x|] eqn:Hb.
  - assert (Hy : yields b = true) by (unfold yields; by rewrite Hb).
    rewrite Hy. cbn [for_blocks].
    destruct (process_block_same tag max_tweets st st' b Hsame) as [Hs Hr].
    destruct (process_block tag max_tweets st b) as [st1 r1].
    destruct (process_block tag max_tweets st' b) as [st1' r1'].
    cbn [fst snd] in Hs, Hr. subst r1'. destruct r1; [by split|]. by apply IH.
  - assert (Hy : yields b = false) by (unfold yields; by rewrite Hb).
    rewrite Hy.
    destruct (process_block_no_candidate tag max_tweets st b Hb) as [Hs Hr].
    destruct (process_block tag max_tweets st b) as [st1 r1].
    cbn [fst snd] in Hs, Hr. subst r1. apply IH.
    by eapply same_data_trans.
Qed.

(** The page without the containers that yield no candidate. *)
Definition sound_containers (page : feed) : feed := fun n =>
  match page n with
  | Ok tweet_blocks => Ok (List.filter yields tweet_blocks)
  | Raise e => Raise e
  end.

Lemma for_scrolls_same page tag max_tweets fuel : forall scroll_num st st',
  same_data st st' ->
  same_data (for_scrolls page tag max_tweets fuel scroll_num st).1
            (for_scrolls (sound_containers page) tag max_tweets fuel scroll_num st').1 /\
  (for_scrolls page tag max_tweets fuel scroll_num st).2
  = (for_scrolls (sound_containers page) tag max_tweets fuel scroll_num st').2.
Proof.
  induction fuel as [|fuel IH]; intros scroll_num st st' Hsame; [done|].
  cbn [for_scrolls]. unfold sound_containers at 1 3.
  destruct (page scroll_num) as [blocks|e]; [|done].
  match goal with |- context [for_blocks tag max_tweets blocks ?s] => set (st0 := s) end.
  match goal with |- context [for_blocks tag max_tweets (List.filter yields blocks) ?s] =>
    set (st0' := s) end.
  assert (H0 : same_data st0 st0').
  { eapply same_data_trans; [apply same_data_logging|].
    eapply same_data_trans; [exact Hsame|]. apply same_data_sym, same_data_logging. }
  destruct (for_blocks_same tag max_tweets blocks st0 st0' H0) as [Hs Hr].
  destruct (for_blocks tag max_tweets blocks st0) as [st1 r1].
  destruct (for_blocks tag max_tweets (List.filter yields blocks) st0') as [st1' r1'].
  cbn [fst snd] in Hs, Hr. subst r1'. destruct r1; [by split|]. by apply IH.
Qed.

(** X7: containers that are blank or whose extraction raises do not change
    what a call returns nor what it adds to [seen_hashes]: the call gives
    the same list and the same set on the page without them. Such a
    container never ends the loop. *)
Theorem failing_containers_skipped page tag seen0 lg max_tweets max_scrolls :
  (scroll_and_collect_tweets page tag seen0 lg max_tweets max_scrolls).1
  = (scroll_and_collect_tweets (sound_containers page) tag seen0 lg max_tweets max_scrolls).1 /\
  (forall st b, candidate b = None ->
     same_data (process_block tag max_tweets st b).1 st /\
     (process_block tag max_tweets st b).2 = false).
Proof.
  split; [|by intros; apply process_block_no_candidate].
  unfold scroll_and_collect_tweets.
  set (st := {| tweets_data := []; seen_hashes := seen0; log := lg |}).
  destruct (for_scrolls_same page tag max_tweets (Z.to_nat max_scrolls) 0 st st)
    as [[Hd Hs] Hr]; [done|].
  destruct (for_scrolls page _ _ _ _ _) as [st1 r1].
  destruct (for_scrolls (sound_containers page) _ _ _ _ _) as [st1' r1'].
  cbn [fst snd] in *. subst r1'. rewrite Hd, Hs. by destruct r1.
Qed.

End Containers.

Lemma failing_containers_skipped_witness :
  same_data
    (Scrapper.process_block (H := Examples.identity_digest) "#nifty50" 2000
       {| Scrapper.tweets_data := []; Scrapper.seen_hashes := ∅; Scrapper.log := [] |}
       Examples.detached).1
    {| Scrapper.tweets_data := []; Scrapper.seen_hashes := ∅; Scrapper.log := [] |}.
Proof.
  apply (proj2 (failing_containers_skipped (H := Examples.identity_digest)
                  Examples.page "#nifty50" ∅ [] 2000 150)).
  reflexivity.
Defined.

Section Cap.
Context `{Hashlib}.
Import PyStr Scrapper.
Local Open Scope list_scope.

(** X8: with a cap of at least one record, the list that a call returns is
    never longer than the cap, whatever the feed, the set and the number of
    scrolls; and a container that brings the list to the cap ends the call
    at once: what the page shows after it is not read. *)
Theorem cap_respected page tag seen0 lg max_tweets max_scrolls :
  1 <= max_tweets ->
  match (scroll_and_collect_tweets page tag seen0 lg max_tweets max_scrolls).1.1 with
  | Ok out => Z.of_nat (List.length out) <= max_tweets
  | Raise _ => True
  end /\
  (forall before b after st st1 st2,
     for_blocks tag max_tweets before st = (st1, false) ->
     process_block tag max_tweets st1 b = (st2, true) ->
     for_blocks tag max_tweets (before ++ b :: after) st = (st2, true) /\
     (len st < max_tweets -> len st2 = max_tweets)).
Proof.
  intros Hmax. split.
  - destruct (_.1.1) as [out|e] eqn:E; [|done].
    apply returned_list in E. subst out.
    apply (for_scrolls_cap page tag max_tweets). unfold len. simpl. lia.
  - intros before b after st st1 st2 Hbefore Hb. split.
    + by eapply for_blocks_returns.
    + intros Hlt.
      pose proof (for_blocks_cap tag max_tweets before st Hlt) as [_ Hf].
      rewrite Hbefore in Hf. cbn [fst snd] in Hf. specialize (Hf eq_refl).
      pose proof (process_block_cap tag max_tweets st1 b Hf) as [Ht _].
      rewrite Hb in Ht. by apply Ht.
Qed.

(** X9: a call whose page shows only posts whose hashes are in the set
    already retains nothing: it returns the empty list, unless a scroll
    raises, and leaves the set as it is. *)
Theorem seen_posts_not_collected page tag seen0 lg max_tweets max_scrolls :
  (forall x, x ∈ candidates (visible page (Z.to_nat max_scrolls) 0) ->
     tweet_hash x ∈ seen0) ->
  let r := scroll_and_collect_tweets page tag seen0 lg max_tweets max_scrolls in
  r.1.2 = seen0 /\ (forall out, r.1.1 = Ok out -> out = []).
Proof.
  intros Hseen r.
  destruct (scroll_and_collect_retains page tag seen0 lg max_tweets max_scrolls)
    as (kept & [Hd Hs Hn Hf Ht] & Hsub).
  assert (Hk : kept = []).
  { destruct kept as [|x kept]; [done|]. exfalso.
    apply (Hf x); [by left|]. apply Hseen.
    apply (sublist_subseteq _ _ Hsub). by left. }
  subst kept. split.
  - unfold r. rewrite returned_seen, Hs. simpl. by rewrite (left_id_L ∅ (∪)).
  - intros out Hout. apply returned_list in Hout. by rewrite Hout, Hd.
Qed.

End Cap.

Lemma cap_respected_witness :
  Z.of_nat (List.length [Examples.tweet_alice]) <= 1.
Proof.
  pose proof (cap_respected (H := Examples.identity_digest) Examples.page "#nifty50"
                ∅ [] 1 150 ltac:(lia)) as [Hc _].
  exact Hc.
Defined.

Lemma seen_posts_not_collected_witness :
  (Scrapper.scroll_and_collect_tweets (H := Examples.identity_digest)
     (fun _ => Ok [Examples.post_bob]) "#banknifty"
     {[ "bob|2025-08-01T11:00:00.000Z|Bank nifty falls" ]} [] 2000 2).1.2
  = {[ "bob|2025-08-01T11:00:00.000Z|Bank nifty falls" ]}.
Proof.
  apply (seen_posts_not_collected (H := Examples.identity_digest)).
  intros x Hx. vm_compute in Hx.
  apply elem_of_cons in Hx as [->|Hx]; [by apply elem_of_singleton|].
  apply elem_of_cons in Hx as [->|Hx]; [by apply elem_of_singleton|].
  by apply elem_of_nil in Hx.
Defined.

Section Rescroll.
Context `{Hashlib}.
Import PyStr Scrapper.
Local Open Scope list_scope.






End Rescroll.

